(** * Restaurant opening hours: a shallow embedding of the Python sources

    The development follows the three modules of the package:
    [models.py] (time ranges, day schedules, restaurants), [parsers.py]
    (the opening-hours grammar and the CSV loader) and [services.py]
    (the in-memory service with its load and query operations).

    Conventions of the embedding.
    - A Python [str] is a list of 8-bit characters, read as the code
      points U+0000..U+00FF; the character classes used by [str.strip],
      [str.lower] and the [re] module are the ones Python has on that range.
    - A Python [int] is a [Z].
    - A call that may raise returns a [result]: [Ok v] or [Raise e], where
      [e] carries the exception class and its message.
    - A [dict] keyed by weekday is a [gmap Z _]. *)

From Stdlib Require Import ZArith Lia Ascii String DecimalString.
From stdpp Require Import base option list gmap sorting strings.

Local Open Scope Z_scope.

(** ** Strings *)

Abbreviation str := (list ascii).

(** String literals of the source. *)
Definition lit (s : string) : str := list_ascii_of_string s.

Definition ord (c : ascii) : Z := Z.of_nat (nat_of_ascii c).

(** [str.isspace] on a single character, which is also the class [\s] of
    the [re] module. *)
Definition isspace (c : ascii) : bool :=
  let n := ord c in
  ((9 <=? n) && (n <=? 13)) || ((28 <=? n) && (n <=? 32))
  || (n =? 133) || (n =? 160).

(** The class [\d] of the [re] module. *)
Definition isdigit (c : ascii) : bool :=
  let n := ord c in (48 <=? n) && (n <=? 57).

Definition lower_char (c : ascii) : ascii :=
  let n := ord c in
  if ((65 <=? n) && (n <=? 90))
     || ((192 <=? n) && (n <=? 222) && negb (n =? 215))
  then ascii_of_nat (nat_of_ascii c + 32)
  else c.

(** [s.lower()] *)
Definition lower (s : str) : str := map lower_char s.

(** [s.lstrip()], [s.rstrip()] and [s.strip()] *)
Fixpoint lstrip (s : str) : str :=
  match s with
  | c :: s' => if isspace c then lstrip s' else s
  | [] => []
  end.

Definition rstrip (s : str) : str := rev (lstrip (rev s)).

Definition strip (s : str) : str := rstrip (lstrip s).

(** Puts a character in front of the first piece of a split. *)
Definition cons_head (c : ascii) (l : list str) : list str :=
  match l with
  | p :: ps => (c :: p) :: ps
  | [] => [[c]]
  end.

(** [s.split(sep)] for a one-character separator. *)
Fixpoint split (sep : ascii) (s : str) : list str :=
  match s with
  | [] => [[]]
  | c :: s' =>
      if Ascii.eqb c sep then [] :: split sep s'
      else cons_head c (split sep s')
  end.

(** [s.split(sep, maxsplit)] for a one-character separator. *)
Fixpoint split_n (sep : ascii) (maxsplit : nat) (s : str) {struct s}
  : list str :=
  match maxsplit, s with
  | O, _ => [s]
  | _, [] => [[]]
  | S n, c :: s' =>
      if Ascii.eqb c sep then [] :: split_n sep n s'
      else cons_head c (split_n sep maxsplit s')
  end.

(** [s.rsplit(sep, maxsplit)] for a one-character separator. *)
Definition rsplit (sep : ascii) (maxsplit : nat) (s : str) : list str :=
  rev (map (@rev ascii) (split_n sep maxsplit (rev s))).

(** [sep.join(l)] *)
Fixpoint join (sep : str) (l : list str) : str :=
  match l with
  | [] => []
  | [x] => x
  | x :: l' => x ++ sep ++ join sep l'
  end.

(** [c in s] for a one-character [c]. *)
Definition contains_char (c : ascii) (s : str) : bool :=
  existsb (Ascii.eqb c) s.

(** [int(s)] on a string of decimal digits. *)
Definition int (s : str) : Z :=
  fold_left (fun acc c => 10 * acc + (ord c - 48)) s 0.

(** ** Regular expressions

    A pattern is read as a backtracking matcher: applied to a text it
    lists, in the order the engine tries them, the ways the pattern matches
    a prefix of the text, each as the matched prefix and the rest. *)

Definition matcher := str -> list (str * str).

(** One character of a class. *)
Definition m_class (p : ascii -> bool) : matcher := fun s =>
  match s with
  | c :: s' => if p c then [([c], s')] else []
  | [] => []
  end.

(** A literal character. *)
Definition m_chr (c : ascii) : matcher := m_class (Ascii.eqb c).

(** A literal character under [re.IGNORECASE]. *)
Definition m_chr_i (c : ascii) : matcher :=
  m_class (fun x => Ascii.eqb (lower_char x) c).

Definition m_eps : matcher := fun s => [([], s)].

Definition m_seq (a b : matcher) : matcher := fun s =>
  '(x, r) ← a s; '(y, r') ← b r; [(x ++ y, r')].

Definition m_alt (a b : matcher) : matcher := fun s => a s ++ b s.

(** [a?], greedy. *)
Definition m_opt (a : matcher) : matcher := m_alt a m_eps.

(** [[p]*] for a character class, greedy. *)
Fixpoint m_star_class (p : ascii -> bool) (s : str) : list (str * str) :=
  match s with
  | c :: s' =>
      if p c then
        map (fun xr => (c :: fst xr, snd xr)) (m_star_class p s') ++ [([], s)]
      else [([], s)]
  | [] => [([], [])]
  end.

(** [\d{1,2}], greedy: two digits are tried before one. *)
Definition m_digits_1_2 : matcher :=
  m_seq (m_class isdigit) (m_opt (m_class isdigit)).

(** [\d{2}] *)
Definition m_digits_2 : matcher := m_seq (m_class isdigit) (m_class isdigit).

(** [re.match(pattern, s)]: the first way the pattern matches at the start
    of [s], if any. *)
Definition re_match {A} (pattern : str -> list A) (s : str) : option A :=
  head (pattern s).

(** [re.search(pattern, s).start()]: the first position of [s] at which
    the pattern matches. *)
Fixpoint re_search_from {A} (pattern : str -> list A) (s : str) (pos : nat)
  : option nat :=
  match pattern s with
  | _ :: _ => Some pos
  | [] =>
      match s with
      | [] => None
      | _ :: s' => re_search_from pattern s' (S pos)
      end
  end.

Definition re_search {A} (pattern : str -> list A) (s : str) : option nat :=
  re_search_from pattern s 0.

(** ** Exceptions and results *)

Inductive exn : Type :=
  | ValueError (msg : str)
  | RuntimeError (msg : str)
  | CsvError (msg : str).

Inductive result (A : Type) : Type :=
  | Ok (a : A)
  | Raise (e : exn).
Arguments Ok {A} a.
Arguments Raise {A} e.

#[global] Instance result_ret : MRet result := fun A a => Ok a.
#[global] Instance result_bind : MBind result := fun A B k r =>
  match r with
  | Ok a => k a
  | Raise e => Raise e
  end.

Definition raises {A} (r : result A) : Prop :=
  match r with Ok _ => False | Raise _ => True end.

Definition is_ValueError (e : exn) : Prop :=
  match e with ValueError _ => True | _ => False end.

Definition is_RuntimeError (e : exn) : Prop :=
  match e with RuntimeError _ => True | _ => False end.

(** ** models.py *)

(** [datetime.time]: the four fields that take part in comparisons of
    naive times. *)
Record time : Type := mk_time {
  hour : Z;
  minute : Z;
  second : Z;
  microsecond : Z
}.

(** The constructor call [time(h, m)] with its range checks. *)
Definition time_new (h m : Z) : result time :=
  if negb ((0 <=? h) && (h <=? 23)) then
    Raise (ValueError (lit "hour must be in 0..23"))
  else if negb ((0 <=? m) && (m <=? 59)) then
    Raise (ValueError (lit "minute must be in 0..59"))
  else Ok (mk_time h m 0 0).

(** Comparison of two times: the tuples (hour, minute, second,
    microsecond) compared lexicographically. *)
Definition time_cmp (a b : time) : comparison :=
  match hour a ?= hour b with
  | Eq =>
      match minute a ?= minute b with
      | Eq =>
          match second a ?= second b with
          | Eq => microsecond a ?= microsecond b
          | c => c
          end
      | c => c
      end
  | c => c
  end.

(** [a <= b] and [a >= b] on times. *)
Definition time_leb (a b : time) : bool :=
  match time_cmp a b with Gt => false | _ => true end.
Definition time_geb (a b : time) : bool :=
  match time_cmp a b with Lt => false | _ => true end.

Record TimeRange : Type := mk_TimeRange {
  start : time;
  end_ : time
}.

Definition contains_time (self : TimeRange) (check_time : time) : bool :=
  if time_leb (start self) (end_ self) then
    time_leb (start self) check_time && time_leb check_time (end_ self)
  else
    time_geb check_time (start self) || time_leb check_time (end_ self).

Record DaySchedule : Type := mk_DaySchedule {
  time_ranges : list TimeRange
}.

Definition is_open_at_time (self : DaySchedule) (check_time : time) : bool :=
  existsb (fun time_range => contains_time time_range check_time)
          (time_ranges self).

Record Restaurant : Type := mk_Restaurant {
  name : str;
  schedule : gmap Z DaySchedule
}.

(** A query instant: what [is_open_at_datetime] reads off a [datetime],
    namely [dt.weekday()] and [dt.time()]. *)
Record datetime : Type := mk_datetime {
  weekday : Z;
  time_of : time
}.

Definition is_open_at_datetime (self : Restaurant) (dt : datetime) : bool :=
  match schedule self !! weekday dt with
  | None => false
  | Some day_schedule => is_open_at_time day_schedule (time_of dt)
  end.

(** ** parsers.py *)

(** [(am|pm)] *)
Definition m_am_pm : matcher :=
  m_alt (m_seq (m_chr "a") (m_chr "m")) (m_seq (m_chr "p") (m_chr "m")).

(** [(?::(\d{2}))?] with what its group holds: the group is tried first. *)
Definition m_minute_group (s : str) : list (option str * str) :=
  ('(_, r) ← m_chr ":" s; '(mm, r') ← m_digits_2 r; [(Some mm, r')])
  ++ [(None, s)].

(** The pattern [(\d{1,2})(?::(\d{2}))?\s*(am|pm)] of [parse_time_string],
    with its three groups. *)
Definition time_pattern (s : str) : list (str * option str * str) :=
  '(g1, r1) ← m_digits_1_2 s;
  '(g2, r2) ← m_minute_group r1;
  '(_, r3) ← m_star_class isspace r2;
  '(g3, _) ← m_am_pm r3;
  [(g1, g2, g3)].

(** The step "Convert to 24-hour format" of [parse_time_string]. *)
Definition to_24_hour (hour : Z) (am_pm : str) : Z :=
  if bool_decide (am_pm = lit "pm") && negb (hour =? 12) then hour + 12
  else if bool_decide (am_pm = lit "am") && (hour =? 12) then 0
  else hour.

(** The part of [parse_time_string] under "Regular time parsing", on the
    stripped and lowercased text. *)
Definition parse_time_regular (time_str : str) : result time :=
  match re_match time_pattern time_str with
  | None =>
      Raise (ValueError (lit "Cannot parse time string: " ++ time_str))
  | Some (g1, g2, am_pm) =>
      let hour := int g1 in
      let minute := match g2 with Some g => int g | None => 0 end in
      let hour := to_24_hour hour am_pm in
      match time_new hour minute with
      | Ok t => Ok t
      | Raise (ValueError _) =>
          Raise (ValueError (lit "Invalid time: " ++ time_str))
      | Raise e => Raise e
      end
  end.

Definition parse_time_string (time_str : str) : result time :=
  let time_str := lower (strip time_str) in
  if bool_decide (time_str = lit "12 am")
     || bool_decide (time_str = lit "12:00 am") then
    time_new 0 0
  else if bool_decide (time_str = lit "12 pm")
          || bool_decide (time_str = lit "12:00 pm") then
    time_new 12 0
  else parse_time_regular time_str.

(** The dict literal [day_mapping], and a lookup in it. *)
Definition day_mapping : list (str * Z) :=
  [(lit "mon", 0); (lit "tue", 1); (lit "tues", 1); (lit "wed", 2);
   (lit "thu", 3); (lit "thurs", 3); (lit "fri", 4); (lit "sat", 5);
   (lit "sun", 6)].

Fixpoint dict_get {V} (d : list (str * V)) (k : str) : option V :=
  match d with
  | [] => None
  | (k', v) :: d' => if bool_decide (k' = k) then Some v else dict_get d' k
  end.

(** [range(a, b)] *)
Definition range (a b : Z) : list Z := seqZ a (b - a).

(** [sorted(l)] on integers and [sorted(list(set(l)))]. *)
Definition sorted_ints (l : list Z) : list Z := merge_sort Z.le l.

Definition sorted_set (l : list Z) : list Z :=
  sorted_ints (elements (list_to_set l : gset Z)).

(** The body of the loop of [parse_day_range] for one piece of the text. *)
Definition parse_day_part (part : str) : result (list Z) :=
  let part := strip part in
  if contains_char "-" part then
    match split_n "-" 1 part with
    | [start_day; end_day] =>
        let start_day := strip start_day in
        let end_day := strip end_day in
        match dict_get day_mapping start_day, dict_get day_mapping end_day with
        | Some start_idx, Some end_idx =>
            if start_idx <=? end_idx then
              Ok (range start_idx (end_idx + 1))
            else
              Ok (range start_idx 7 ++ range 0 (end_idx + 1))
        | _, _ => Raise (ValueError (lit "Unknown day in range: " ++ part))
        end
    | _ => Raise (ValueError (lit "not enough values to unpack"))
    end
  else
    match dict_get day_mapping part with
    | Some d => Ok [d]
    | None => Raise (ValueError (lit "Unknown day: " ++ part))
    end.

(** The loop of [parse_day_range]: [days] is the list built so far. *)
Fixpoint parse_day_parts (parts : list str) (days : list Z)
  : result (list Z) :=
  match parts with
  | [] => Ok days
  | part :: rest =>
      ds ← parse_day_part part;
      parse_day_parts rest (days ++ ds)
  end.

Definition parse_day_range (day_str : str) : result (list Z) :=
  let day_str := lower (strip day_str) in
  days ← parse_day_parts (split "," day_str) [];
  Ok (sorted_set days).

Definition parse_time_range (time_range_str : str) : result TimeRange :=
  if negb (contains_char "-" time_range_str) then
    Raise (ValueError
             (lit "No time range separator found: " ++ time_range_str))
  else
    match split_n "-" 1 time_range_str with
    | [start_str; end_str] =>
        start_time ← parse_time_string (strip start_str);
        end_time ← parse_time_string (strip end_str);
        Ok (mk_TimeRange start_time end_time)
    | _ => Raise (ValueError (lit "not enough values to unpack"))
    end.

(** The pattern [(\d{1,2}(?::\d{2})?\s*(?:am|pm))] searched with
    [re.IGNORECASE] by [parse_restaurant_hours]. *)
Definition hours_pattern : matcher :=
  m_seq m_digits_1_2
    (m_seq (m_opt (m_seq (m_chr ":") m_digits_2))
       (m_seq (m_star_class isspace)
          (m_alt (m_seq (m_chr_i "a") (m_chr_i "m"))
                 (m_seq (m_chr_i "p") (m_chr_i "m"))))).

(** The two statements inside the [try], and again in the handler. *)
Definition parse_parts (days_part time_range_part : str)
  : result (list Z * TimeRange) :=
  days ← parse_day_range days_part;
  time_range ← parse_time_range time_range_part;
  Ok (days, time_range).

(** The primary attempt: the last three of the pieces of
    [period.rsplit(' ', 3)] are the time range. *)
Definition primary_parse (parts : list str) : result (list Z * TimeRange) :=
  let days_part := join (lit " ") (take (length parts - 3) parts) in
  let time_range_part := join (lit " ") (drop (length parts - 3) parts) in
  parse_parts days_part time_range_part.

(** The [except ValueError] handler: split at the first time found. *)
Definition fallback_parse (period : str) : result (list Z * TimeRange) :=
  match re_search hours_pattern period with
  | None => Raise (ValueError (lit "Cannot find time in period: " ++ period))
  | Some time_start_pos =>
      let days_part := strip (take time_start_pos period) in
      let time_range_part := strip (drop time_start_pos period) in
      parse_parts days_part time_range_part
  end.

(** The body of the loop of [parse_restaurant_hours] up to the point where
    [days] and [time_range] are known, for a non-empty stripped period. *)
Definition parse_period (period : str) : result (list Z * TimeRange) :=
  let parts := rsplit " " 3 period in
  if (length parts <? 4)%nat then
    Raise (ValueError (lit "Cannot parse time period: " ++ period))
  else
    match primary_parse parts with
    | Ok r => Ok r
    | Raise (ValueError _) => fallback_parse period
    | Raise e => Raise e
    end.

(** One turn of the inner loop: [time_range] is appended to the schedule of
    [day], which is created when absent. *)
Definition add_range (time_range : TimeRange)
    (schedule : gmap Z DaySchedule) (day : Z) : gmap Z DaySchedule :=
  let schedule :=
    match schedule !! day with
    | None => <[day := mk_DaySchedule []]> schedule
    | Some _ => schedule
    end in
  alter (fun ds => mk_DaySchedule (time_ranges ds ++ [time_range]))
        day schedule.

(** The loop over the periods. *)
Fixpoint parse_periods (time_periods : list str)
    (schedule : gmap Z DaySchedule) : result (gmap Z DaySchedule) :=
  match time_periods with
  | [] => Ok schedule
  | period :: rest =>
      let period := strip period in
      if bool_decide (period = []) then parse_periods rest schedule
      else
        '(days, time_range) ← parse_period period;
        parse_periods rest (foldl (add_range time_range) schedule days)
  end.

Definition parse_restaurant_hours (hours_str : str)
  : result (gmap Z DaySchedule) :=
  let time_periods := map strip (split "/" hours_str) in
  parse_periods time_periods ∅.

(** *** [csv.reader(StringIO(csv_content))]

    The reader of the [csv] module with the default dialect: delimiter
    a comma, quote character the double quote (doubled inside a quoted
    field to stand for itself), no escape character, not
    strict, and a field size limit of 131072. *)

Definition LF : ascii := "010"%char.
Definition CR : ascii := "013"%char.
Definition delimiter : ascii := ","%char.
Definition quotechar : ascii := ascii_of_nat 34.
Definition field_limit : Z := 131072.

(** Iterating over a [StringIO]: the lines of the text, each with the
    line feed that ends it. *)
Fixpoint readlines (s : str) : list str :=
  match s with
  | [] => []
  | c :: s' =>
      if Ascii.eqb c LF then [c] :: readlines s'
      else cons_head c (readlines s')
  end.

Inductive ParserState : Type :=
  | START_RECORD
  | START_FIELD
  | IN_FIELD
  | IN_QUOTED_FIELD
  | QUOTE_IN_QUOTED_FIELD
  | EAT_CRNL.

#[global] Instance ParserState_eq_dec : EqDecision ParserState.
Proof. solve_decision. Defined.

Record Reader : Type := mk_Reader {
  fields : list str;
  state : ParserState;
  field : str
}.

Definition parse_reset : Reader := mk_Reader [] START_RECORD [].

Definition set_state (st : ParserState) (self : Reader) : Reader :=
  mk_Reader (fields self) st (field self).

Definition parse_save_field (self : Reader) : Reader :=
  mk_Reader (fields self ++ [field self]) (state self) [].

Definition parse_add_char (self : Reader) (c : ascii) : result Reader :=
  if field_limit <=? Z.of_nat (length (field self)) then
    Raise (CsvError (lit "field larger than field limit (131072)"))
  else Ok (mk_Reader (fields self) (state self) (field self ++ [c])).

(** End of a line: a line feed, a carriage return, or the end-of-line mark
    [None] that the reader feeds after the last character of each line. *)
Definition is_eol (c : option ascii) : bool :=
  match c with
  | None => true
  | Some ch => Ascii.eqb ch LF || Ascii.eqb ch CR
  end.

Definition after_eol (c : option ascii) : ParserState :=
  match c with None => START_RECORD | Some _ => EAT_CRNL end.

(** The case [START_FIELD] of [parse_process_char], which the case
    [START_RECORD] falls through to. *)
Definition start_field (self : Reader) (c : option ascii) : result Reader :=
  match c with
  | Some ch =>
      if is_eol c then Ok (set_state (after_eol c) (parse_save_field self))
      else if Ascii.eqb ch quotechar then Ok (set_state IN_QUOTED_FIELD self)
      else if Ascii.eqb ch delimiter then Ok (parse_save_field self)
      else self' ← parse_add_char self ch; Ok (set_state IN_FIELD self')
  | None => Ok (set_state (after_eol c) (parse_save_field self))
  end.

Definition parse_process_char (self : Reader) (c : option ascii)
  : result Reader :=
  match state self with
  | START_RECORD =>
      match c with
      | None => Ok self
      | Some ch =>
          if is_eol c then Ok (set_state EAT_CRNL self)
          else start_field (set_state START_FIELD self) c
      end
  | START_FIELD => start_field self c
  | IN_FIELD =>
      match c with
      | Some ch =>
          if is_eol c then
            Ok (set_state (after_eol c) (parse_save_field self))
          else if Ascii.eqb ch delimiter then
            Ok (set_state START_FIELD (parse_save_field self))
          else parse_add_char self ch
      | None => Ok (set_state (after_eol c) (parse_save_field self))
      end
  | IN_QUOTED_FIELD =>
      match c with
      | None => Ok self
      | Some ch =>
          if Ascii.eqb ch quotechar then
            Ok (set_state QUOTE_IN_QUOTED_FIELD self)
          else parse_add_char self ch
      end
  | QUOTE_IN_QUOTED_FIELD =>
      match c with
      | Some ch =>
          if Ascii.eqb ch quotechar then
            self' ← parse_add_char self ch;
            Ok (set_state IN_QUOTED_FIELD self')
          else if Ascii.eqb ch delimiter then
            Ok (set_state START_FIELD (parse_save_field self))
          else if is_eol c then
            Ok (set_state (after_eol c) (parse_save_field self))
          else
            self' ← parse_add_char self ch;
            Ok (set_state IN_FIELD self')
      | None => Ok (set_state (after_eol c) (parse_save_field self))
      end
  | EAT_CRNL =>
      match c with
      | None => Ok (set_state START_RECORD self)
      | Some ch =>
          if is_eol c then Ok self
          else
            Raise (CsvError
                     (lit "new-line character seen in unquoted field - do you need to open the file in universal-newline mode?"))
      end
  end.

(** One line fed to the parser: its characters, then the end-of-line
    mark. *)
Fixpoint process_line (self : Reader) (line : str) : result Reader :=
  match line with
  | [] => parse_process_char self None
  | c :: line' =>
      self' ← parse_process_char self (Some c);
      process_line self' line'
  end.

(** The records the reader yields from the lines that are left, and the
    error that ends the iteration, if one does. A record is complete when
    the parser is back in [START_RECORD] at the end of a line; at the end
    of the input a pending field or an open quoted field is yielded as a
    last record. *)
Fixpoint read_records (self : Reader) (lines : list str)
  : list (list str) * option exn :=
  match lines with
  | [] =>
      if negb (length (field self) =? 0)%nat
         || bool_decide (state self = IN_QUOTED_FIELD)
      then ([fields (parse_save_field self)], None)
      else ([], None)
  | line :: rest =>
      match process_line self line with
      | Raise e => ([], Some e)
      | Ok self' =>
          if bool_decide (state self' = START_RECORD) then
            let '(rows, err) := read_records parse_reset rest in
            (fields self' :: rows, err)
          else read_records self' rest
      end
  end.

Definition csv_reader (csv_content : str) : list (list str) * option exn :=
  read_records parse_reset (readlines csv_content).

(** The loop of [parse_restaurants_from_csv] over the records after the
    header. [out] is what has been printed so far. *)
Fixpoint load_rows (rows : list (list str)) (restaurants : list Restaurant)
    (out : list str) : list str * result (list Restaurant) :=
  match rows with
  | [] => (out, Ok restaurants)
  | row :: rest =>
      if negb (length row =? 2)%nat then load_rows rest restaurants out
      else
        match row with
        | [name; hours] =>
            match parse_restaurant_hours hours with
            | Ok schedule =>
                load_rows rest (restaurants ++ [mk_Restaurant name schedule])
                          out
            | Raise (ValueError e) =>
                load_rows rest restaurants
                  (out ++ [lit "Warning: Could not parse hours for " ++ name
                             ++ lit ": " ++ e])
            | Raise e => (out, Raise e)
            end
        | _ => (out, Raise (ValueError (lit "not enough values to unpack")))
        end
  end.

(** The result comes with the lines printed on the way. *)
Definition parse_restaurants_from_csv (csv_content : str)
  : list str * result (list Restaurant) :=
  let '(rows, err) := csv_reader csv_content in
  match rows with
  | [] =>
      match err with
      | None => ([], Ok [])
      | Some e => ([], Raise e)
      end
  | _ :: rows =>
      match load_rows rows [] [] with
      | (out, Ok restaurants) =>
          match err with
          | None => (out, Ok restaurants)
          | Some e => (out, Raise e)
          end
      | (out, Raise e) => (out, Raise e)
      end
  end.

(** ** services.py *)

(** Comparison of two strings, [a <= b]: lexicographic on code points. *)
Fixpoint str_leb (a b : str) : bool :=
  match a, b with
  | [], _ => true
  | _ :: _, [] => false
  | c :: a', d :: b' =>
      if ord c <? ord d then true
      else if ord d <? ord c then false
      else str_leb a' b'
  end.

Definition str_le (a b : str) : Prop := str_leb a b = true.

#[global] Instance str_le_dec : RelDecision str_le.
Proof. intros a b. unfold str_le. apply _. Defined.

(** [sorted(l)] on a list of strings. *)
Definition sorted_strs (l : list str) : list str := merge_sort str_le l.

(** [str(n)] for a length. *)
Definition str_of_nat (n : nat) : str :=
  lit (NilZero.string_of_uint (Nat.to_uint n)).

Record RestaurantService : Type := mk_RestaurantService {
  _restaurants : list Restaurant;
  _loaded : bool
}.

(** [RestaurantService()] *)
Definition new_service : RestaurantService := mk_RestaurantService [] false.

(** The outcome of a method call: the lines it printed, what it returned
    or raised, and the service afterwards. *)
Record outcome (A : Type) : Type := mk_outcome {
  printed : list str;
  returned : result A;
  after : RestaurantService
}.
Arguments mk_outcome {A} _ _ _.
Arguments printed {A} _.
Arguments returned {A} _.
Arguments after {A} _.

Definition load_restaurants_from_content (self : RestaurantService)
    (csv_content : str) : outcome unit :=
  match parse_restaurants_from_csv csv_content with
  | (out, Raise e) => mk_outcome out (Raise e) self
  | (out, Ok restaurants) =>
      mk_outcome
        (out ++ [lit "Loaded " ++ str_of_nat (length restaurants)
                   ++ lit " restaurants from content"])
        (Ok ())
        (mk_RestaurantService restaurants true)
  end.

Definition is_loaded (self : RestaurantService) : bool := _loaded self.

Definition get_restaurant_count (self : RestaurantService) : Z :=
  Z.of_nat (length (_restaurants self)).

Definition not_loaded_msg : str :=
  lit "Restaurant data not loaded. Call load_restaurants_from_csv first.".

Section Query.

(** [dateutil.parser.parse], read through the weekday and time of day of
    the datetime it returns; [None] when it raises. *)
Variable date_parser_parse : str -> option datetime.

Definition find_open_restaurants (self : RestaurantService)
    (datetime_str : str) : outcome (list str) :=
  if negb (_loaded self) then
    mk_outcome [] (Raise (RuntimeError not_loaded_msg)) self
  else
    match date_parser_parse datetime_str with
    | None =>
        mk_outcome []
          (Raise (ValueError
                    (lit "Invalid datetime format: " ++ datetime_str)))
          self
    | Some query_datetime =>
        let open_restaurants :=
          foldl (fun acc restaurant =>
                   if is_open_at_datetime restaurant query_datetime
                   then acc ++ [name restaurant] else acc)
                [] (_restaurants self) in
        mk_outcome [] (Ok (sorted_strs open_restaurants)) self
    end.

End Query.

Definition get_restaurants_open_on_day (self : RestaurantService)
    (weekday : Z) : outcome (list str) :=
  if negb ((0 <=? weekday) && (weekday <=? 6)) then
    mk_outcome []
      (Raise (ValueError
                (lit "Weekday must be between 0 (Monday) and 6 (Sunday)")))
      self
  else if negb (_loaded self) then
    mk_outcome [] (Raise (RuntimeError not_loaded_msg)) self
  else
    let open_restaurants :=
      foldl (fun acc restaurant =>
               if bool_decide (is_Some (schedule restaurant !! weekday))
               then acc ++ [name restaurant] else acc)
            [] (_restaurants self) in
    mk_outcome [] (Ok (sorted_strs open_restaurants)) self.

(** The loop of [get_restaurant_by_name]: the first restaurant whose
    lowercased name is the lowercased query. *)
Fixpoint find_by_name (restaurants : list Restaurant) (query : str)
  : option Restaurant :=
  match restaurants with
  | [] => None
  | restaurant :: rest =>
      if bool_decide (lower (name restaurant) = lower query)
      then Some restaurant
      else find_by_name rest query
  end.

Definition get_restaurant_by_name (self : RestaurantService) (query : str)
  : outcome (option Restaurant) :=
  mk_outcome [] (Ok (find_by_name (_restaurants self) query)) self.

(** ** main.py

    The endpoint functions, as functions of the state of the module's
    [restaurant_service].  An endpoint returns its response model or raises
    [HTTPException(status_code, detail)]. *)

Module main.

Inductive response (A : Type) : Type :=
  | Response (body : A)
  | HTTPException (status_code : Z) (detail : str).
Arguments Response {A} _.
Arguments HTTPException {A} _ _.

Record RestaurantsResponse : Type := mk_RestaurantsResponse {
  restaurants : list str
}.

Record CountResponse : Type := mk_CountResponse {
  count : Z
}.

Definition HTTP_400_BAD_REQUEST : Z := 400.
Definition HTTP_500_INTERNAL_SERVER_ERROR : Z := 500.
Definition HTTP_503_SERVICE_UNAVAILABLE : Z := 503.

(** [str(exc)] for an exception raised with one message. *)
Definition exn_str (e : exn) : str :=
  match e with
  | ValueError msg | RuntimeError msg | CsvError msg => msg
  end.

Section Endpoints.

Variable date_parser_parse : str -> option datetime.

Definition get_open_restaurants (restaurant_service : RestaurantService)
    (datetime_param : str) : response RestaurantsResponse :=
  if negb (is_loaded restaurant_service) then
    HTTPException HTTP_503_SERVICE_UNAVAILABLE
      (lit "Restaurant data not loaded")
  else
    match returned (find_open_restaurants date_parser_parse
                      restaurant_service datetime_param) with
    | Ok open_restaurants =>
        Response (mk_RestaurantsResponse open_restaurants)
    | Raise (ValueError _ as exc) =>
        HTTPException HTTP_400_BAD_REQUEST
          (lit "Invalid datetime format: " ++ exn_str exc)
    | Raise exc =>
        HTTPException HTTP_500_INTERNAL_SERVER_ERROR
          (lit "Internal server error: " ++ exn_str exc)
    end.

End Endpoints.

Definition get_restaurant_count (restaurant_service : RestaurantService)
  : response CountResponse :=
  if negb (is_loaded restaurant_service) then
    HTTPException HTTP_503_SERVICE_UNAVAILABLE
      (lit "Restaurant data not loaded")
  else
    let count := get_restaurant_count restaurant_service in
    Response (mk_CountResponse count).

End main.

(** ** Notions the statements are phrased in *)

(** The lexicographic order on strings. *)
Inductive lex_le : str -> str -> Prop :=
  | lex_le_nil b : lex_le [] b
  | lex_le_lt c d a b : ord c < ord d -> lex_le (c :: a) (d :: b)
  | lex_le_eq c a b : lex_le a b -> lex_le (c :: a) (c :: b).

(** A restaurant is open at a weekday and time of day: the weekday is a key
    of its schedule and some range of that day contains the time. *)
Definition open_at (r : Restaurant) (wd : Z) (t : time) : Prop :=
  exists ds, schedule r !! wd = Some ds /\
             Exists (fun tr => contains_time tr t = true) (time_ranges ds).

#[global] Instance open_at_dec r wd t : Decision (open_at r wd t).
Proof.
  unfold open_at. destruct (schedule r !! wd) as [ds|].
  - destruct (decide (Exists (fun tr => contains_time tr t = true)
                             (time_ranges ds))) as [H|H].
    + left. by exists ds.
    + right. intros (ds' & [= <-] & H'). by apply H.
  - right. by intros (ds' & [=] & _).
Defined.

(** A load fails: parsing the text raises. *)
Definition load_fails (csv_content : str) : Prop :=
  raises (parse_restaurants_from_csv csv_content).2.

(** The service after loading each of a list of texts in turn. *)
Definition load_all (self : RestaurantService) (contents : list str)
  : RestaurantService :=
  foldl (fun st c => after (load_restaurants_from_content st c)) self contents.

(** What the parser maintains on the schedule it builds. *)
Definition schedule_ok (m : gmap Z DaySchedule) : Prop :=
  forall d ds, m !! d = Some ds -> 0 <= d <= 6 /\ time_ranges ds <> [].

(** The pieces of a day list as [parse_day_range] sees them: the text
    stripped and lowercased, cut at the commas, each piece stripped. *)
Definition segments (day_str : str) : list str :=
  strip <$> split "," (lower (strip day_str)).

(** A day token names the weekday [i] in the fixed table. *)
Definition known_day (tok : str) (i : Z) : Prop :=
  dict_get day_mapping tok = Some i.

(** The weekdays a segment denotes: the day it names; or, for "A-B" cut at
    its first hyphen, the days from A to B inclusive when A is not after B,
    and otherwise the days from A to Sunday and from Monday to B. *)
Inductive segment_has (seg : str) (d : Z) : Prop :=
  | has_single :
      ("-"%char ∉ seg) -> known_day seg d -> segment_has seg d
  | has_range a b i j :
      seg = a ++ "-"%char :: b -> ("-"%char ∉ a) ->
      known_day (strip a) i -> known_day (strip b) j ->
      i <= j -> i <= d <= j -> segment_has seg d
  | has_wrap a b i j :
      seg = a ++ "-"%char :: b -> ("-"%char ∉ a) ->
      known_day (strip a) i -> known_day (strip b) j ->
      j < i -> (i <= d <= 6 \/ 0 <= d <= j) -> segment_has seg d.

(** A segment has a day token outside the table. *)
Definition segment_unknown (seg : str) : Prop :=
  (("-"%char ∉ seg) /\ dict_get day_mapping seg = None) \/
  (exists a b, seg = a ++ "-"%char :: b /\ ("-"%char ∉ a) /\
               (dict_get day_mapping (strip a) = None \/
                dict_get day_mapping (strip b) = None)).

(** The text of an optional minute group. *)
Definition minute_text (m : option str) : str :=
  match m with
  | Some mm => ":"%char :: mm
  | None => []
  end.

(** The shape hour[:minute] (am|pm): an hour of one or two digits, an
    optional minute of exactly two digits, optional whitespace, and the
    suffix am or pm. *)
Definition is_time_text (h : str) (m : option str) (ws suffix : str) : Prop :=
  (length h = 1%nat \/ length h = 2%nat) /\
  Forall (fun c => isdigit c = true) h /\
  match m with
  | Some mm => length mm = 2%nat /\ Forall (fun c => isdigit c = true) mm
  | None => True
  end /\
  Forall (fun c => isspace c = true) ws /\
  (suffix = lit "am" \/ suffix = lit "pm").

(** The hour on the 24-hour clock: pm adds 12 except at 12, and 12 am is
    0. *)
Definition hour24 (h : Z) (suffix : str) : Z :=
  if decide (suffix = lit "pm" /\ h <> 12) then h + 12
  else if decide (suffix = lit "am" /\ h = 12) then 0
  else h.

Definition minute_of (m : option str) : Z :=
  match m with
  | Some mm => int mm
  | None => 0
  end.

(** Hour in 0..23 and minute in 0..59. *)
Definition in_range (h m : Z) : Prop := 0 <= h <= 23 /\ 0 <= m <= 59.

(** The restaurant a record of the CSV text stands for: a record of
    exactly two fields, name and hours, whose hours text parses. *)
Definition restaurant_of (row : list str) : option Restaurant :=
  match row with
  | [name; hours] =>
      match parse_restaurant_hours hours with
      | Ok schedule => Some (mk_Restaurant name schedule)
      | Raise _ => None
      end
  | _ => None
  end.

(** The diagnostic printed for a record: one line for a record of two
    fields whose hours text does not parse. *)
Definition warning_of (row : list str) : option str :=
  match row with
  | [name; hours] =>
      match parse_restaurant_hours hours with
      | Ok _ => None
      | Raise (ValueError e | RuntimeError e | CsvError e) =>
          Some (lit "Warning: Could not parse hours for " ++ name
                  ++ lit ": " ++ e)
      end
  | _ => None
  end.

(** A line ends at its first line feed. *)
Definition ends_at_lf (line : str) : Prop :=
  forall l1 l2, line = l1 ++ LF :: l2 -> l2 = [].

(** The periods of an hours text that are not blank, stripped. *)
Definition periods_of (hours_str : str) : list str :=
  filter (fun p => p <> []) (strip <$> split "/" hours_str).

(** The ranges that a list of parsed periods gives a weekday, in the order
    of the periods. *)
Definition ranges_on (d : Z) (parsed : list (list Z * TimeRange))
  : list TimeRange :=
  snd <$> filter (fun r => d ∈ r.1) parsed.

(** A time of day on the minute: hour in 0..23, minute in 0..59, no
    seconds and no microseconds. *)
Definition on_minute (t : time) : Prop :=
  0 <= hour t <= 23 /\ 0 <= minute t <= 59 /\
  second t = 0 /\ microsecond t = 0.

(** The sample text of the hours grammar. *)
Definition sample_hours : str :=
  lit "Mon-Thu, Sun 11:30 am - 10 pm / Fri-Sat 11:30 am - 11 pm".

(** A text with a carriage return inside an unquoted field, followed by
    more data on the same line. *)
Definition csv_with_bare_cr : str :=
  lit "Restaurant Name,Hours" ++ [LF]
  ++ lit "First,Mon-Sun 11:00 am - 10 pm" ++ [CR]
  ++ lit "Second,Mon-Fri 9 am - 5 pm" ++ [LF].

(** A field written between quote characters. *)
Definition quoted (s : str) : str := [quotechar] ++ s ++ [quotechar].

(** The text of [test_parse_csv_data]: a header and two data rows, every
    field quoted. *)
Definition csv_two_rows : str :=
  quoted (lit "Restaurant Name") ++ lit "," ++ quoted (lit "Hours") ++ [LF]
  ++ quoted (lit "Test Restaurant") ++ lit ","
  ++ quoted (lit "Mon-Sun 11:00 am - 10 pm") ++ [LF]
  ++ quoted (lit "Another Place") ++ lit ","
  ++ quoted (lit "Mon-Fri 9 am - 5 pm").

(** A record written as a line of CSV text: every field between quote
    characters, commas between the fields, a line feed at the end. *)
Definition csv_line (row : list str) : str :=
  join (lit ",") (quoted <$> row) ++ [LF].

Definition csv_text (rows : list (list str)) : str :=
  concat (csv_line <$> rows).

(** A field that can be written between quotes as it stands: it holds no
    quote character and no line feed, and is within the field size limit. *)
Definition quotable (f : str) : Prop :=
  (quotechar ∉ f) /\ (LF ∉ f) /\ Z.of_nat (length f) <= field_limit.

(** The characters of a piece of a line fed to the parser, one by one. *)
Fixpoint feed (self : Reader) (chars : str) : result Reader :=
  match chars with
  | [] => Ok self
  | c :: chars' =>
      self' ← parse_process_char self (Some c);
      feed self' chars'
  end.

(** ** The order on times, stated independently of the code *)

Definition time_lt (a b : time) : Prop :=
  hour a < hour b \/
  (hour a = hour b /\
   (minute a < minute b \/
    (minute a = minute b /\
     (second a < second b \/
      (second a = second b /\ microsecond a < microsecond b))))).

Definition time_le (a b : time) : Prop := time_lt a b \/ a = b.

(** Shorthand for a time given by hour and minute. *)
Definition hm (h m : Z) : time := mk_time h m 0 0.

(** * Properties *)

(** ** Times and time ranges *)

Lemma time_eta (a : time) :
  a = mk_time (hour a) (minute a) (second a) (microsecond a).
Proof. by destruct a. Qed.

Lemma time_cmp_Lt a b : time_cmp a b = Lt <-> time_lt a b.
Proof.
  unfold time_cmp, time_lt.
  destruct (Z.compare_spec (hour a) (hour b));
    destruct (Z.compare_spec (minute a) (minute b));
    destruct (Z.compare_spec (second a) (second b));
    rewrite ?Z.compare_lt_iff;
    (split; [intros; try discriminate | intros; try reflexivity]); lia.
Qed.

Lemma time_cmp_Eq a b : time_cmp a b = Eq <-> a = b.
Proof.
  split.
  - unfold time_cmp.
    destruct (Z.compare_spec (hour a) (hour b)); try discriminate.
    destruct (Z.compare_spec (minute a) (minute b)); try discriminate.
    destruct (Z.compare_spec (second a) (second b)); try discriminate.
    rewrite Z.compare_eq_iff. intros.
    rewrite (time_eta a), (time_eta b). congruence.
  - intros ->. unfold time_cmp. by rewrite !Z.compare_refl.
Qed.

Lemma time_cmp_antisym a b : time_cmp b a = CompOpp (time_cmp a b).
Proof.
  unfold time_cmp.
  rewrite (Z.compare_antisym (hour a)), (Z.compare_antisym (minute a)),
    (Z.compare_antisym (second a)), (Z.compare_antisym (microsecond a)).
  destruct (hour a ?= hour b); simpl; try done.
  destruct (minute a ?= minute b); simpl; try done.
  destruct (second a ?= second b); simpl; done.
Qed.

Lemma time_leb_le a b : time_leb a b = true <-> time_le a b.
Proof.
  unfold time_leb, time_le. rewrite <- time_cmp_Lt, <- time_cmp_Eq.
  destruct (time_cmp a b); intuition congruence.
Qed.

Lemma time_geb_le a b : time_geb a b = true <-> time_le b a.
Proof.
  unfold time_geb. rewrite <- time_leb_le. unfold time_leb.
  rewrite (time_cmp_antisym a b). by destruct (time_cmp a b).
Qed.

Lemma time_leb_false a b : time_leb a b = false <-> time_lt b a.
Proof.
  rewrite <- time_cmp_Lt, (time_cmp_antisym a b). unfold time_leb.
  destruct (time_cmp a b); simpl; intuition congruence.
Qed.

(** C3. A range with start after end (overnight) contains [t] exactly when
    [t >= start] or [t <= end]; a range with start not after end contains
    [t] exactly when [start <= t <= end]; both ends are included. The range
    23:00-02:00 contains 23:00, 00:00, 01:00 and 02:00, and neither 22:00
    nor 03:00. *)
Theorem contains_time_spec :
  (forall (tr : TimeRange) (t : time),
     (time_lt (end_ tr) (start tr) ->
      (contains_time tr t = true <->
       time_le (start tr) t \/ time_le t (end_ tr))) /\
     (time_le (start tr) (end_ tr) ->
      (contains_time tr t = true <->
       time_le (start tr) t /\ time_le t (end_ tr)))) /\
  let late := mk_TimeRange (hm 23 0) (hm 2 0) in
  contains_time late (hm 23 0) = true /\
  contains_time late (hm 0 0) = true /\
  contains_time late (hm 1 0) = true /\
  contains_time late (hm 2 0) = true /\
  contains_time late (hm 22 0) = false /\
  contains_time late (hm 3 0) = false.
Proof.
  split; [| by repeat split].
  intros tr t. unfold contains_time. split.
  - intros Hlt. apply time_leb_false in Hlt. rewrite Hlt.
    by rewrite orb_true_iff, time_geb_le, time_leb_le.
  - intros Hle. apply time_leb_le in Hle. rewrite Hle.
    by rewrite andb_true_iff, !time_leb_le.
Qed.

(** The general part of C3 at an overnight range and at a daytime range. *)
Lemma contains_time_spec_witness :
  (time_lt (hm 2 0) (hm 23 0) /\
   (contains_time (mk_TimeRange (hm 23 0) (hm 2 0)) (hm 1 30) = true <->
    time_le (hm 23 0) (hm 1 30) \/ time_le (hm 1 30) (hm 2 0))) /\
  (time_le (hm 9 0) (hm 17 0) /\
   (contains_time (mk_TimeRange (hm 9 0) (hm 17 0)) (hm 17 0) = true <->
    time_le (hm 9 0) (hm 17 0) /\ time_le (hm 17 0) (hm 17 0))).
Proof.
  assert (H1 : time_lt (hm 2 0) (hm 23 0)) by (left; simpl; lia).
  assert (H2 : time_le (hm 9 0) (hm 17 0)) by (left; left; simpl; lia).
  split.
  - split; [exact H1 |].
    exact (proj1 (proj1 contains_time_spec
                    (mk_TimeRange (hm 23 0) (hm 2 0)) (hm 1 30)) H1).
  - split; [exact H2 |].
    exact (proj2 (proj1 contains_time_spec
                    (mk_TimeRange (hm 9 0) (hm 17 0)) (hm 17 0)) H2).
Defined.

(** ** The day-list parser *)

Lemma day_mapping_range k v : dict_get day_mapping k = Some v -> 0 <= v <= 6.
Proof.
  unfold day_mapping. simpl. repeat case_bool_decide; intros [= <-]; lia.
Qed.

Lemma elem_of_range a b d : d ∈ range a b <-> a <= d < b.
Proof. unfold range. rewrite elem_of_seqZ. lia. Qed.

Lemma parse_day_part_range part ds :
  parse_day_part part = Ok ds -> Forall (fun d => 0 <= d <= 6) ds.
Proof.
  unfold parse_day_part. destruct (contains_char _ _).
  - destruct (split_n _ _ _) as [|a [|b [|? ?]]]; try done.
    destruct (dict_get day_mapping (strip a)) as [i|] eqn:Hi; [| done].
    destruct (dict_get day_mapping (strip b)) as [j|] eqn:Hj; [| done].
    apply day_mapping_range in Hi, Hj.
    destruct (i <=? j); intros [= <-]; rewrite Forall_forall; intros d;
      rewrite ?elem_of_app, !elem_of_range; lia.
  - destruct (dict_get day_mapping (strip part)) as [i|] eqn:Hi; [| done].
    apply day_mapping_range in Hi. intros [= <-]. by constructor.
Qed.

(** The loop adds the days of each piece to the list, in order. *)
Lemma parse_day_parts_Ok parts acc days :
  parse_day_parts parts acc = Ok days <->
  exists dss, Forall2 (fun p ds => parse_day_part p = Ok ds) parts dss /\
              days = acc ++ concat dss.
Proof.
  revert acc. induction parts as [|p parts IH]; intros acc; simpl.
  - split.
    + intros [= <-]. exists []. split; [constructor | by rewrite app_nil_r].
    + intros (dss & H & ->). inversion H. simpl. by rewrite app_nil_r.
  - destruct (parse_day_part p) as [ds|e] eqn:Hp; simpl.
    + rewrite IH. split.
      * intros (dss & H & ->). exists (ds :: dss). split; [by constructor |].
        simpl. by rewrite app_assoc.
      * intros (dss & H & ->). inversion H as [|? ds' ? dss' Hp' H']; subst.
        rewrite Hp in Hp'. injection Hp' as <-.
        exists dss'. split; [done |]. simpl. by rewrite app_assoc.
    + split; [done |]. intros (dss & H & _).
      inversion H as [|? ds' ? dss' Hp' H']; subst. congruence.
Qed.

Lemma elem_of_sorted_set l d : d ∈ sorted_set l <-> d ∈ l.
Proof.
  unfold sorted_set, sorted_ints.
  by rewrite merge_sort_Permutation, elem_of_elements, elem_of_list_to_set.
Qed.

Lemma parse_day_range_range s days :
  parse_day_range s = Ok days -> Forall (fun d => 0 <= d <= 6) days.
Proof.
  unfold parse_day_range.
  destruct (parse_day_parts _ _) as [l|e] eqn:Hl; [| done].
  intros [= <-]. apply parse_day_parts_Ok in Hl as (dss & Hdss & ->).
  rewrite Forall_forall. intros d. rewrite elem_of_sorted_set. simpl.
  rewrite list_elem_of_In, in_concat. intros (ds & Hds & Hd).
  apply list_elem_of_In, list_elem_of_lookup in Hds as [i Hi].
  apply list_elem_of_In in Hd.
  destruct (Forall2_lookup_r _ _ _ _ _ Hdss Hi) as (p & _ & Hp).
  apply parse_day_part_range in Hp. by eapply Forall_forall in Hp.
Qed.

(** ** The hours grammar *)

Lemma parse_parts_range a b days tr :
  parse_parts a b = Ok (days, tr) -> Forall (fun d => 0 <= d <= 6) days.
Proof.
  unfold parse_parts.
  destruct (parse_day_range a) as [ds|] eqn:Ha; [| done]. simpl.
  destruct (parse_time_range b); [| done]. intros [= <- _].
  by eapply parse_day_range_range.
Qed.

Lemma parse_period_range period days tr :
  parse_period period = Ok (days, tr) -> Forall (fun d => 0 <= d <= 6) days.
Proof.
  unfold parse_period. destruct (_ <? _)%nat; [done |].
  unfold primary_parse, fallback_parse.
  destruct (parse_parts _ _) as [[ds t]|[]] eqn:H1; try done.
  - intros [= <- <-]. by eapply parse_parts_range.
  - destruct (re_search _ _); [| done]. apply parse_parts_range.
Qed.

Lemma add_range_lookup tr (m : gmap Z DaySchedule) day d :
  add_range tr m day !! d =
  if decide (d = day) then
    Some (mk_DaySchedule (from_option time_ranges [] (m !! day) ++ [tr]))
  else m !! d.
Proof.
  unfold add_range. destruct (decide (d = day)) as [->|Hne].
  - destruct (m !! day) as [ds|] eqn:Hd.
    + by rewrite lookup_alter_eq, Hd.
    + by rewrite lookup_alter_eq, lookup_insert_eq.
  - destruct (m !! day) as [ds|] eqn:Hd.
    + by rewrite lookup_alter_ne.
    + by rewrite lookup_alter_ne, lookup_insert_ne.
Qed.

Lemma add_ranges_ok tr days m :
  Forall (fun d => 0 <= d <= 6) days -> schedule_ok m ->
  schedule_ok (foldl (add_range tr) m days).
Proof.
  intros Hdays. revert m. induction Hdays as [|day days Hday _ IH]; [done |].
  intros m Hm. simpl. apply IH. intros d ds. rewrite add_range_lookup.
  destruct (decide (d = day)) as [->|_]; [| apply Hm].
  intros [= <-]. split; [done |]. simpl. by destruct (from_option _ _ _).
Qed.

Lemma parse_periods_ok periods m schedule :
  schedule_ok m -> parse_periods periods m = Ok schedule ->
  schedule_ok schedule.
Proof.
  revert m. induction periods as [|p periods IH]; intros m Hm; simpl.
  - by intros [= <-].
  - case_bool_decide; [by apply IH |].
    destruct (parse_period (strip p)) as [[days tr]|] eqn:Hp; [| done].
    simpl. apply IH, add_ranges_ok; [| done]. by eapply parse_period_range.
Qed.

(** C10. Every mapping returned by [parse_restaurant_hours] has its keys
    in 0..6 and holds no day schedule with an empty list of ranges; so a
    weekday is a key exactly when that day has at least one range. *)
Theorem parse_restaurant_hours_schedule_ok
    (hours_str : str) (schedule : gmap Z DaySchedule) :
  parse_restaurant_hours hours_str = Ok schedule ->
  (forall d ds, schedule !! d = Some ds ->
                0 <= d <= 6 /\ time_ranges ds <> []) /\
  (forall d, is_Some (schedule !! d) <->
             exists ds tr, schedule !! d = Some ds /\ tr ∈ time_ranges ds).
Proof.
  intros H. apply parse_periods_ok in H; [| by intros d ds].
  split; [exact H |]. intros d. split.
  - intros [ds Hds]. destruct (H d ds Hds) as [_ Hne].
    destruct (time_ranges ds) as [|tr l] eqn:Htr; [done |].
    exists ds, tr. split; [done |]. rewrite Htr. by left.
  - intros (ds & _ & Hds & _). by exists ds.
Qed.

Lemma parse_restaurant_hours_schedule_ok_witness :
  let schedule : gmap Z DaySchedule :=
    {[ 0 := mk_DaySchedule [mk_TimeRange (hm 17 0) (hm 2 0)] ]} in
  parse_restaurant_hours (lit "Mon 5 pm - 2 am") = Ok schedule /\
  (forall d ds, schedule !! d = Some ds ->
                0 <= d <= 6 /\ time_ranges ds <> []).
Proof.
  intros schedule.
  assert (H : parse_restaurant_hours (lit "Mon 5 pm - 2 am") = Ok schedule)
    by (vm_compute; reflexivity).
  split; [exact H |].
  exact (proj1 (parse_restaurant_hours_schedule_ok _ _ H)).
Defined.

(** ** The hours grammar on the sample text *)

(** C1. On "Mon-Thu, Sun 11:30 am - 10 pm / Fri-Sat 11:30 am - 11 pm"
    [parse_restaurant_hours] returns a mapping whose keys are the seven
    weekdays; days 0, 1, 2, 3 and 6 each hold the single range 11:30-22:00
    and days 4 and 5 each hold the single range 11:30-23:00. *)
Theorem parse_restaurant_hours_sample :
  exists schedule : gmap Z DaySchedule,
    parse_restaurant_hours sample_hours = Ok schedule /\
    dom schedule = list_to_set [0; 1; 2; 3; 6] ∪ list_to_set [4; 5] /\
    dom schedule = list_to_set [0; 1; 2; 3; 4; 5; 6] /\
    Forall (fun d => schedule !! d =
                     Some (mk_DaySchedule [mk_TimeRange (hm 11 30) (hm 22 0)]))
           [0; 1; 2; 3; 6] /\
    Forall (fun d => schedule !! d =
                     Some (mk_DaySchedule [mk_TimeRange (hm 11 30) (hm 23 0)]))
           [4; 5].
Proof.
  eexists. split; [vm_compute; reflexivity |].
  split; [by vm_compute |]. split; [by vm_compute |].
  split; repeat constructor.
Qed.

(** ** The day-list parser against its description *)

Lemma contains_char_elem_of c s : contains_char c s = true <-> c ∈ s.
Proof.
  unfold contains_char. rewrite existsb_exists. setoid_rewrite Ascii.eqb_eq.
  setoid_rewrite <- list_elem_of_In. split.
  - by intros (x & Hx & ->).
  - intros H. by exists c.
Qed.

Lemma contains_char_not_elem_of c s : contains_char c s = false <-> c ∉ s.
Proof.
  rewrite <- contains_char_elem_of. by destruct (contains_char c s).
Qed.

(** Cutting at the first separator. *)
Lemma split_n_first sep a b :
  sep ∉ a -> split_n sep 1 (a ++ sep :: b) = [a; b].
Proof.
  induction a as [|c a IH]; simpl; intros Hn.
  - rewrite Ascii.eqb_refl. by destruct b.
  - apply not_elem_of_cons in Hn as [Hc Ha].
    destruct (Ascii.eqb_spec c sep) as [->|_]; [done |].
    by rewrite IH.
Qed.

Lemma first_cut_unique {A} (x : A) a b a' b' :
  a ++ x :: b = a' ++ x :: b' -> x ∉ a -> x ∉ a' -> a = a' /\ b = b'.
Proof.
  revert a'. induction a as [|c a IH]; intros [|c' a']; simpl.
  - by intros [= ->].
  - intros [= <- _] _ Hn. by apply not_elem_of_cons in Hn as [? _].
  - intros [= -> _] Hn _. by apply not_elem_of_cons in Hn as [? _].
  - intros [= <- H] [_ Hn]%not_elem_of_cons [_ Hn']%not_elem_of_cons.
    destruct (IH _ H Hn Hn') as [-> ->]. done.
Qed.

(** One piece: it fails exactly on an unknown day token, and otherwise
    yields the days the segment denotes. *)
Lemma parse_day_part_spec part :
  match parse_day_part part with
  | Ok ds =>
      ~ segment_unknown (strip part) /\
      forall d, d ∈ ds <-> segment_has (strip part) d
  | Raise e =>
      segment_unknown (strip part) /\
      (e = ValueError (lit "Unknown day in range: " ++ strip part) \/
       e = ValueError (lit "Unknown day: " ++ strip part))
  end.
Proof.
  unfold parse_day_part. set (seg := strip part).
  destruct (contains_char "-" seg) eqn:Hc.
  - apply contains_char_elem_of, list_elem_of_split_l in Hc
      as (a & b & Hseg & Ha).
    rewrite Hseg, (split_n_first _ _ _ Ha), <- Hseg.
    assert (Hin : "-"%char ∈ seg) by (rewrite Hseg; set_solver).
    assert (Hcut : forall a' b', seg = a' ++ "-"%char :: b' ->
                     "-"%char ∉ a' -> a' = a /\ b' = b).
    { intros a' b' H' Ha'. rewrite Hseg in H'.
      symmetry in H'. by apply first_cut_unique in H'. }
    destruct (dict_get day_mapping (strip a)) as [i|] eqn:Hi;
      [destruct (dict_get day_mapping (strip b)) as [j|] eqn:Hj |].
    + assert (Hd : forall d, segment_has seg d <->
                (i <= j /\ i <= d <= j) \/
                (j < i /\ (i <= d <= 6 \/ 0 <= d <= j))).
      { intros d. split.
        - intros [Hn _|a' b' i' j' H' Ha' Hi' Hj' Hij Hd
                 |a' b' i' j' H' Ha' Hi' Hj' Hij Hd]; [done | |];
            destruct (Hcut _ _ H' Ha') as [-> ->];
            unfold known_day in *; simplify_eq; auto.
        - intros [[Hij Hd]|[Hij Hd]].
          + by eapply (has_range seg d a b i j).
          + by eapply (has_wrap seg d a b i j). }
      assert (Hk : ~ segment_unknown seg).
      { intros [[Hn _]|(a' & b' & H' & Ha' & Hu)]; [done |].
        destruct (Hcut _ _ H' Ha') as [-> ->]. rewrite Hi, Hj in Hu.
        by destruct Hu. }
      apply day_mapping_range in Hi as Hi', Hj as Hj'.
      destruct (Z.leb_spec i j); (split; [done |]); intros d;
        rewrite Hd, ?elem_of_app, !elem_of_range; lia.
    + split; [| by left]. right. exists a, b. auto.
    + split; [| by left]. right. exists a, b. auto.
  - apply contains_char_not_elem_of in Hc.
    destruct (dict_get day_mapping seg) as [i|] eqn:Hi.
    + split.
      * intros [[_ Hu]|(a' & b' & H' & _)]; [congruence |].
        apply Hc. rewrite H'. set_solver.
      * intros d. rewrite list_elem_of_singleton. split.
        -- intros ->. by apply has_single.
        -- intros [_ Hk|a' b' ? ? H' _ _ _ _ _|a' b' ? ? H' _ _ _ _ _].
           ++ unfold known_day in Hk. congruence.
           ++ exfalso. apply Hc. rewrite H'. set_solver.
           ++ exfalso. apply Hc. rewrite H'. set_solver.
    + split; [by left | by right].
Qed.

(** The loop stops at the first piece that fails. *)
Lemma parse_day_parts_Raise parts acc e :
  parse_day_parts parts acc = Raise e ->
  exists p, p ∈ parts /\ parse_day_part p = Raise e.
Proof.
  revert acc. induction parts as [|p parts IH]; intros acc; simpl; [done |].
  destruct (parse_day_part p) as [ds|e'] eqn:Hp; simpl.
  - intros (q & Hq & He)%IH. exists q. split; [by right | done].
  - intros [= ->]. exists p. split; [by left | done].
Qed.

Lemma strictly_sorted (l : list Z) :
  StronglySorted Z.le l -> NoDup l -> StronglySorted Z.lt l.
Proof.
  induction 1 as [|x l _ IH Hx]; [constructor |].
  intros [Hnx Hnd]%NoDup_cons. constructor; [by apply IH |].
  rewrite Forall_forall in Hx |- *. intros y Hy.
  assert (x <> y) by (by intros ->). specialize (Hx y Hy). lia.
Qed.

Lemma sorted_set_sorted l : StronglySorted Z.lt (sorted_set l).
Proof.
  unfold sorted_set, sorted_ints. apply strictly_sorted.
  - apply StronglySorted_merge_sort; apply _.
  - rewrite merge_sort_Permutation. apply NoDup_elements.
Qed.

(** C5. [parse_day_range] fails with the unknown-day error when some
    segment has a day token outside the table; otherwise it returns the
    strictly increasing (sorted, duplicate-free) list of exactly the days
    that some segment denotes, where "A-B" with A not after B denotes A..B
    and with A after B denotes A..Sunday and Monday..B. "Mon-Fri" gives
    0,1,2,3,4 and "Sat-Mon" gives the days 5, 6 and 0, as the list 0,5,6. *)
Theorem parse_day_range_spec (day_str : str) :
  (Exists segment_unknown (segments day_str) ->
   exists seg, seg ∈ segments day_str /\ segment_unknown seg /\
     (parse_day_range day_str
      = Raise (ValueError (lit "Unknown day in range: " ++ seg)) \/
      parse_day_range day_str
      = Raise (ValueError (lit "Unknown day: " ++ seg)))) /\
  (~ Exists segment_unknown (segments day_str) ->
   exists days, parse_day_range day_str = Ok days /\
     StronglySorted Z.lt days /\
     forall d, d ∈ days <->
               Exists (fun seg => segment_has seg d) (segments day_str)) /\
  parse_day_range (lit "Mon-Fri") = Ok [0; 1; 2; 3; 4] /\
  (exists days, parse_day_range (lit "Sat-Mon") = Ok days /\
                days = [0; 5; 6] /\ (list_to_set days : gset Z) = {[5; 6; 0]}).
Proof.
  assert (Hres :
    match parse_day_range day_str with
    | Ok days =>
        ~ Exists segment_unknown (segments day_str) /\
        StronglySorted Z.lt days /\
        forall d, d ∈ days <->
                  Exists (fun seg => segment_has seg d) (segments day_str)
    | Raise e =>
        exists seg, seg ∈ segments day_str /\ segment_unknown seg /\
          (e = ValueError (lit "Unknown day in range: " ++ seg) \/
           e = ValueError (lit "Unknown day: " ++ seg))
    end).
  { unfold parse_day_range, segments.
    set (parts := split "," (lower (strip day_str))).
    destruct (parse_day_parts parts []) as [days|e] eqn:Hp; simpl.
    - apply parse_day_parts_Ok in Hp as (dss & Hdss & ->). simpl.
      assert (Hall : Forall2 (fun p ds =>
                 ~ segment_unknown (strip p) /\
                 forall d, d ∈ ds <-> segment_has (strip p) d) parts dss).
      { eapply Forall2_impl; [exact Hdss |]. intros p ds Hpd.
        pose proof (parse_day_part_spec p) as H. by rewrite Hpd in H. }
      split; [| split; [apply sorted_set_sorted |]].
      + rewrite Exists_fmap, Exists_exists. intros (p & Hp & Hu).
        apply list_elem_of_lookup in Hp as [i Hi].
        destruct (Forall2_lookup_l _ _ _ _ _ Hall Hi) as (ds & _ & Hn & _).
        by apply Hn.
      + intros d. rewrite elem_of_sorted_set, list_elem_of_In, in_concat.
        rewrite Exists_fmap, Exists_exists. split.
        * intros (ds & Hds & Hd).
          apply list_elem_of_In, list_elem_of_lookup in Hds as [i Hi].
          destruct (Forall2_lookup_r _ _ _ _ _ Hall Hi) as (p & Hp & _ & Hh).
          exists p. split; [by eapply list_elem_of_lookup_2 |].
          by apply Hh, list_elem_of_In.
        * intros (p & Hp & Hh).
          apply list_elem_of_lookup in Hp as [i Hi].
          destruct (Forall2_lookup_l _ _ _ _ _ Hall Hi) as (ds & Hds & _ & Hd).
          exists ds. split; [by eapply list_elem_of_In, list_elem_of_lookup_2 |].
          by apply list_elem_of_In, Hd.
    - apply parse_day_parts_Raise in Hp as (p & Hp & He).
      pose proof (parse_day_part_spec p) as H. rewrite He in H.
      destruct H as [Hu Hmsg]. exists (strip p).
      split; [by apply list_elem_of_fmap_2 |]. done. }
  split; [| split].
  - intros Hex. destruct (parse_day_range day_str) as [days|e].
    + by destruct Hres as [Hn _].
    + destruct Hres as (seg & Hin & Hu & [->| ->]); exists seg; auto.
  - intros Hn. destruct (parse_day_range day_str) as [days|e].
    + exists days. by destruct Hres as (_ & ? & ?).
    + destruct Hres as (seg & Hin & Hu & _). exfalso. apply Hn.
      apply Exists_exists. eauto.
  - split; [by vm_compute |]. exists [0; 5; 6].
    split; [by vm_compute |]. split; [done | by vm_compute].
Qed.

Lemma segments_known parts :
  Forall (fun p => exists ds, parse_day_part p = Ok ds) parts ->
  ~ Exists segment_unknown (strip <$> parts).
Proof.
  rewrite Exists_fmap, Forall_forall, Exists_exists.
  intros Hall (p & Hp & Hu). destruct (Hall p Hp) as [ds Hds].
  pose proof (parse_day_part_spec p) as H. rewrite Hds in H. by apply H.
Qed.

Lemma parse_day_range_spec_witness :
  (exists seg, seg ∈ segments (lit "Mon-Funday") /\ segment_unknown seg /\
     (parse_day_range (lit "Mon-Funday")
      = Raise (ValueError (lit "Unknown day in range: " ++ seg)) \/
      parse_day_range (lit "Mon-Funday")
      = Raise (ValueError (lit "Unknown day: " ++ seg)))) /\
  (exists days, parse_day_range (lit "Mon-Thu, Sun") = Ok days /\
     StronglySorted Z.lt days /\
     forall d, d ∈ days <->
               Exists (fun seg => segment_has seg d)
                      (segments (lit "Mon-Thu, Sun"))).
Proof.
  split.
  - apply (proj1 (parse_day_range_spec (lit "Mon-Funday"))).
    apply Exists_cons_hd. right. exists (lit "mon"), (lit "funday").
    split; [reflexivity |].
    split; [by apply contains_char_not_elem_of | by right].
  - apply (proj1 (proj2 (parse_day_range_spec (lit "Mon-Thu, Sun")))).
    apply segments_known.
    repeat constructor; eexists; vm_compute; reflexivity.
Defined.

(** ** What the matchers match

    Each matcher lists exactly the ways its pattern can match a prefix of
    the text. *)

Lemma elem_of_m_class p s x r :
  (x, r) ∈ m_class p s <-> exists c, s = c :: r /\ p c = true /\ x = [c].
Proof.
  unfold m_class. destruct s as [|c s].
  - rewrite elem_of_nil. split; [done | by intros (? & ? & _)].
  - destruct (p c) eqn:Hp.
    + rewrite list_elem_of_singleton. split.
      * intros [= -> ->]. by exists c.
      * intros (c' & [= <- <-] & _ & ->). done.
    + rewrite elem_of_nil. split; [done |].
      intros (c' & [= <- <-] & Hp' & _). congruence.
Qed.

Lemma elem_of_m_chr c s x r :
  (x, r) ∈ m_chr c s <-> s = c :: r /\ x = [c].
Proof.
  unfold m_chr. rewrite elem_of_m_class. split.
  - intros (c' & -> & ->%Ascii.eqb_eq & ->). done.
  - intros [-> ->]. exists c. by rewrite Ascii.eqb_refl.
Qed.

Lemma elem_of_m_seq a b s x r :
  (x, r) ∈ m_seq a b s <->
  exists x1 r1 x2, (x1, r1) ∈ a s /\ (x2, r) ∈ b r1 /\ x = x1 ++ x2.
Proof.
  unfold m_seq. rewrite list_elem_of_bind. split.
  - intros ([x1 r1] & H & H1). apply list_elem_of_bind in H as ([x2 r2] & H & H2).
    apply list_elem_of_singleton in H as [= -> ->]. by exists x1, r1, x2.
  - intros (x1 & r1 & x2 & H1 & H2 & ->). exists (x1, r1). split; [| done].
    apply list_elem_of_bind. exists (x2, r). split; [| done].
    by apply list_elem_of_singleton.
Qed.

Lemma elem_of_m_opt a s x r :
  (x, r) ∈ m_opt a s <-> (x, r) ∈ a s \/ (x = [] /\ r = s).
Proof.
  unfold m_opt, m_alt, m_eps. rewrite elem_of_app, list_elem_of_singleton.
  split; (intros [H|H]; [by left | right]); [by injection H | by destruct H as [-> ->]].
Qed.

Lemma elem_of_m_star_class p s x r :
  (x, r) ∈ m_star_class p s <-> s = x ++ r /\ Forall (fun c => p c = true) x.
Proof.
  revert x. induction s as [|c s IH]; intros x; simpl.
  - rewrite list_elem_of_singleton. split.
    + by intros [= -> ->].
    + intros [H _]. symmetry in H. by apply app_eq_nil in H as [-> ->].
  - destruct (p c) eqn:Hp.
    + rewrite elem_of_app, list_elem_of_fmap, list_elem_of_singleton. split.
      * intros [([x' r'] & [= -> ->] & H)|[= -> ->]]; [| done].
        apply IH in H as [-> H]. simpl. split; [done | by constructor].
      * intros [H Hx]. destruct x as [|c' x]; [right; by rewrite H |].
        left. injection H as <- ->. apply Forall_cons in Hx as [_ Hx].
        exists (x, r). split; [done |]. by apply IH.
    + rewrite list_elem_of_singleton. split.
      * by intros [= -> ->].
      * intros [H Hx]. destruct x as [|c' x]; [by rewrite H |].
        injection H as <- ->. apply Forall_cons in Hx as [Hc _]. congruence.
Qed.

Lemma elem_of_m_digits_1_2 s x r :
  (x, r) ∈ m_digits_1_2 s <->
  s = x ++ r /\ (length x = 1%nat \/ length x = 2%nat) /\
  Forall (fun c => isdigit c = true) x.
Proof.
  unfold m_digits_1_2. rewrite elem_of_m_seq. split.
  - intros (x1 & r1 & x2 & H1 & H2 & ->).
    apply elem_of_m_class in H1 as (c & -> & Hc & ->).
    apply elem_of_m_opt in H2 as [H2|[-> ->]].
    + apply elem_of_m_class in H2 as (d & -> & Hd & ->). simpl.
      split; [done |]. split; [by right | by repeat constructor].
    + simpl. split; [done |]. split; [by left | by repeat constructor].
  - intros (-> & Hlen & Hx).
    destruct x as [|c [|d [|? ?]]]; simpl in Hlen; try (destruct Hlen; lia).
    + apply Forall_cons in Hx as [Hc _].
      exists [c], r, []. split; [apply elem_of_m_class; by exists c |].
      split; [| done]. apply elem_of_m_opt. by right.
    + apply Forall_cons in Hx as [Hc Hx]. apply Forall_cons in Hx as [Hd _].
      exists [c], (d :: r), [d]. split; [apply elem_of_m_class; by exists c |].
      split; [| done]. apply elem_of_m_opt. left.
      apply elem_of_m_class. by exists d.
Qed.

Lemma elem_of_m_digits_2 s x r :
  (x, r) ∈ m_digits_2 s <->
  s = x ++ r /\ length x = 2%nat /\ Forall (fun c => isdigit c = true) x.
Proof.
  unfold m_digits_2. rewrite elem_of_m_seq. split.
  - intros (x1 & r1 & x2 & H1 & H2 & ->).
    apply elem_of_m_class in H1 as (c & -> & Hc & ->).
    apply elem_of_m_class in H2 as (d & -> & Hd & ->). simpl.
    split; [done |]. split; [done | by repeat constructor].
  - intros (-> & Hlen & Hx).
    destruct x as [|c [|d [|? ?]]]; simpl in Hlen; try lia.
    apply Forall_cons in Hx as [Hc Hx]. apply Forall_cons in Hx as [Hd _].
    exists [c], (d :: r), [d]. split; [apply elem_of_m_class; by exists c |].
    split; [| done]. apply elem_of_m_class. by exists d.
Qed.

Lemma elem_of_m_am_pm s x r :
  (x, r) ∈ m_am_pm s <-> s = x ++ r /\ (x = lit "am" \/ x = lit "pm").
Proof.
  unfold m_am_pm, m_alt. rewrite elem_of_app, !elem_of_m_seq. split.
  - intros [H|H]; destruct H as (x1 & r1 & x2 & H1 & H2 & ->);
      apply elem_of_m_chr in H1 as [-> ->];
      apply elem_of_m_chr in H2 as [-> ->]; simpl; auto.
  - intros [-> [-> | ->]]; [left | right].
    + exists (lit "a"), ("m"%char :: r), (lit "m").
      split; [by apply elem_of_m_chr |]. split; [by apply elem_of_m_chr | done].
    + exists (lit "p"), ("m"%char :: r), (lit "m").
      split; [by apply elem_of_m_chr |]. split; [by apply elem_of_m_chr | done].
Qed.

Lemma elem_of_m_minute_group s g r :
  (g, r) ∈ m_minute_group s <->
  s = minute_text g ++ r /\
  match g with
  | Some mm => length mm = 2%nat /\ Forall (fun c => isdigit c = true) mm
  | None => True
  end.
Proof.
  unfold m_minute_group.
  rewrite elem_of_app, list_elem_of_singleton, list_elem_of_bind. split.
  - intros [([x r1] & H & H1)|[= -> ->]]; [| done].
    apply elem_of_m_chr in H1 as [-> ->].
    apply list_elem_of_bind in H as ([mm r'] & H & H2).
    apply list_elem_of_singleton in H as [= -> ->].
    apply elem_of_m_digits_2 in H2 as (-> & Hlen & Hmm). done.
  - intros [-> Hg]. destruct g as [mm|]; [left | by right].
    destruct Hg as [Hlen Hmm]. exists ([":"%char], mm ++ r).
    split; [| by apply elem_of_m_chr].
    apply list_elem_of_bind. exists (mm, r).
    split; [by apply list_elem_of_singleton | by apply elem_of_m_digits_2].
Qed.

(** The matches of the time pattern are the ways to read a prefix of the
    text as hour[:minute] (am|pm). *)
Lemma elem_of_time_pattern s g1 g2 g3 :
  (g1, g2, g3) ∈ time_pattern s <->
  exists ws rest,
    s = g1 ++ minute_text g2 ++ ws ++ g3 ++ rest /\ is_time_text g1 g2 ws g3.
Proof.
  unfold time_pattern, is_time_text. split.
  - intros H. apply list_elem_of_bind in H as ([h r1] & H & H1).
    apply list_elem_of_bind in H as ([m r2] & H & H2).
    apply list_elem_of_bind in H as ([ws r3] & H & H3).
    apply list_elem_of_bind in H as ([suf r4] & H & H4).
    apply list_elem_of_singleton in H as [= -> -> ->].
    apply elem_of_m_digits_1_2 in H1 as (-> & Hlen & Hh).
    apply elem_of_m_minute_group in H2 as (-> & Hm).
    apply elem_of_m_star_class in H3 as (-> & Hws).
    apply elem_of_m_am_pm in H4 as (-> & Hsuf).
    by exists ws, r4.
  - intros (ws & rest & -> & Hlen & Hh & Hm & Hws & Hsuf).
    apply list_elem_of_bind.
    exists (g1, minute_text g2 ++ ws ++ g3 ++ rest).
    split; [| by apply elem_of_m_digits_1_2].
    apply list_elem_of_bind. exists (g2, ws ++ g3 ++ rest).
    split; [| by apply elem_of_m_minute_group].
    apply list_elem_of_bind. exists (ws, g3 ++ rest).
    split; [| by apply elem_of_m_star_class].
    apply list_elem_of_bind. exists (g3, rest).
    split; [by apply list_elem_of_singleton | by apply elem_of_m_am_pm].
Qed.

(** ** The time parser *)

Lemma isspace_not_digit c : isspace c = true -> isdigit c = false.
Proof.
  unfold isspace, isdigit. intros H. apply not_true_is_false. revert H.
  rewrite !orb_true_iff, !andb_true_iff, !Z.leb_le, !Z.eqb_eq. lia.
Qed.

(** A run of characters of a class followed by a text that starts outside
    the class can be cut in one way only. *)
Lemma span_unique (p : ascii -> bool) x y x' y' :
  Forall (fun c => p c = true) x -> Forall (fun c => p c = true) x' ->
  (forall c, head y = Some c -> p c = false) ->
  (forall c, head y' = Some c -> p c = false) ->
  x ++ y = x' ++ y' -> x = x' /\ y = y'.
Proof.
  intros Hx. revert x'. induction Hx as [|c x Hc _ IH]; intros x' Hx' Hy Hy'.
  - destruct Hx' as [|c' x' Hc' _]; [done |]. simpl. intros ->.
    specialize (Hy c' eq_refl). congruence.
  - destruct Hx' as [|c' x' Hc' Hx']; simpl.
    + intros <-. specialize (Hy' c eq_refl). congruence.
    + intros [= <- H]. by destruct (IH x' Hx' Hy Hy' H) as [-> ->].
Qed.

Lemma head_suffix suffix rest c :
  suffix = lit "am" \/ suffix = lit "pm" ->
  head (suffix ++ rest) = Some c ->
  isspace c = false /\ isdigit c = false /\ c <> ":"%char.
Proof. by intros [-> | ->] [= <-]. Qed.

Lemma head_ws_suffix ws suffix rest c :
  Forall (fun c => isspace c = true) ws ->
  suffix = lit "am" \/ suffix = lit "pm" ->
  head (ws ++ suffix ++ rest) = Some c ->
  isdigit c = false /\ c <> ":"%char.
Proof.
  intros [|c' ws' Hc' _] Hs; simpl.
  - intros H. by destruct (head_suffix _ _ _ Hs H) as (_ & ? & ?).
  - intros [= <-]. split; [by apply isspace_not_digit |]. by intros ->.
Qed.

Lemma head_minute_ws_suffix m ws suffix rest c :
  Forall (fun c => isspace c = true) ws ->
  suffix = lit "am" \/ suffix = lit "pm" ->
  head (minute_text m ++ ws ++ suffix ++ rest) = Some c ->
  isdigit c = false.
Proof.
  intros Hws Hs. destruct m as [mm|]; simpl.
  - by intros [= <-].
  - intros H. by destruct (head_ws_suffix _ _ _ _ Hws Hs H).
Qed.

(** A text starts with hour[:minute] (am|pm) in at most one way. *)
Lemma time_text_unique h m ws suffix rest h' m' ws' suffix' rest' :
  h ++ minute_text m ++ ws ++ suffix ++ rest
  = h' ++ minute_text m' ++ ws' ++ suffix' ++ rest' ->
  is_time_text h m ws suffix -> is_time_text h' m' ws' suffix' ->
  h = h' /\ m = m' /\ suffix = suffix'.
Proof.
  intros Heq (_ & Hh & Hm & Hws & Hs) (_ & Hh' & Hm' & Hws' & Hs').
  apply (span_unique isdigit) in Heq; [| done | done | |].
  2: { intros c. by apply head_minute_ws_suffix. }
  2: { intros c. by apply head_minute_ws_suffix. }
  destruct Heq as [<- Heq]. split; [done |].
  assert (Hrest : m = m' /\ ws ++ suffix ++ rest = ws' ++ suffix' ++ rest').
  { destruct m as [mm|], m' as [mm'|]; simpl in Heq.
    - injection Heq as Heq. destruct Hm as [Hl _], Hm' as [Hl' _].
      apply app_inj_1 in Heq as [-> ->]; [done | congruence].
    - exfalso. symmetry in Heq.
      assert (H : head (ws' ++ suffix' ++ rest') = Some ":"%char)
        by (by rewrite Heq).
      by destruct (head_ws_suffix _ _ _ _ Hws' Hs' H).
    - exfalso.
      assert (H : head (ws ++ suffix ++ rest) = Some ":"%char)
        by (by rewrite Heq).
      by destruct (head_ws_suffix _ _ _ _ Hws Hs H).
    - done. }
  destruct Hrest as [<- Heq']. split; [done |].
  apply (span_unique isspace) in Heq'; [| done | done | |].
  2: { intros c Hc. by destruct (head_suffix _ _ _ Hs Hc). }
  2: { intros c Hc. by destruct (head_suffix _ _ _ Hs' Hc). }
  destruct Heq' as [_ Heq'].
  apply app_inj_1 in Heq' as [-> _]; [done |].
  by destruct Hs as [-> | ->], Hs' as [-> | ->].
Qed.

Lemma re_match_time_pattern t h m ws suffix rest :
  t = h ++ minute_text m ++ ws ++ suffix ++ rest ->
  is_time_text h m ws suffix ->
  re_match time_pattern t = Some (h, m, suffix).
Proof.
  intros Ht Hshape. unfold re_match.
  assert (Hin : (h, m, suffix) ∈ time_pattern t).
  { apply elem_of_time_pattern. by exists ws, rest. }
  destruct (time_pattern t) as [|[[h' m'] suffix'] l] eqn:Hp.
  - by apply elem_of_nil in Hin.
  - assert (Hin' : (h', m', suffix') ∈ time_pattern t)
      by (rewrite Hp; by left).
    apply elem_of_time_pattern in Hin' as (ws' & rest' & Ht' & Hshape').
    rewrite Ht in Ht'.
    by destruct (time_text_unique _ _ _ _ _ _ _ _ _ _ Ht' Hshape Hshape')
      as (-> & -> & ->).
Qed.

Lemma re_match_time_pattern_None t :
  ~ (exists h m ws suffix rest,
       t = h ++ minute_text m ++ ws ++ suffix ++ rest /\
       is_time_text h m ws suffix) ->
  re_match time_pattern t = None.
Proof.
  intros Hn. unfold re_match.
  destruct (time_pattern t) as [|[[h m] suffix] l] eqn:Hp; [done |].
  exfalso. apply Hn.
  assert (Hin : (h, m, suffix) ∈ time_pattern t) by (rewrite Hp; by left).
  apply elem_of_time_pattern in Hin as (ws & rest & Ht & Hshape).
  by exists h, m, ws, suffix, rest.
Qed.

Lemma time_new_in_range h m : in_range h m -> time_new h m = Ok (hm h m).
Proof.
  unfold in_range, time_new. intros [[] []].
  by rewrite !(proj2 (Z.leb_le _ _)).
Qed.

Lemma time_new_out_of_range h m :
  ~ in_range h m -> exists msg, time_new h m = Raise (ValueError msg).
Proof.
  unfold in_range, time_new. intros Hn.
  destruct (Z.leb_spec 0 h), (Z.leb_spec h 23); simpl; eauto.
  destruct (Z.leb_spec 0 m), (Z.leb_spec m 59); simpl; eauto. lia.
Qed.

(** The two literal shortcuts return what the regular path returns. *)
Lemma parse_time_string_regular time_str :
  parse_time_string time_str = parse_time_regular (lower (strip time_str)).
Proof.
  unfold parse_time_string.
  repeat case_bool_decide; simpl; try done;
    match goal with H : lower _ = _ |- _ => by rewrite H end.
Qed.

Lemma to_24_hour_hour24 h suffix : to_24_hour h suffix = hour24 h suffix.
Proof.
  unfold to_24_hour, hour24.
  destruct (Z.eqb_spec h 12);
    repeat case_bool_decide; repeat case_decide; simpl;
    first [done | exfalso; tauto].
Qed.

Lemma parse_time_regular_matched t h m ws suffix rest :
  t = h ++ minute_text m ++ ws ++ suffix ++ rest ->
  is_time_text h m ws suffix ->
  (in_range (hour24 (int h) suffix) (minute_of m) ->
   parse_time_regular t = Ok (hm (hour24 (int h) suffix) (minute_of m))) /\
  (~ in_range (hour24 (int h) suffix) (minute_of m) ->
   parse_time_regular t = Raise (ValueError (lit "Invalid time: " ++ t))).
Proof.
  intros Ht Hshape. unfold parse_time_regular.
  rewrite (re_match_time_pattern _ _ _ _ _ _ Ht Hshape).
  cbv zeta. rewrite to_24_hour_hour24. fold (minute_of m). split.
  - intros Hr. by rewrite (time_new_in_range _ _ Hr).
  - intros Hr. destruct (time_new_out_of_range _ _ Hr) as [msg ->]. done.
Qed.

(** C4, as the code has it. [parse_time_string] looks for the pattern
    hour[:minute] (am|pm) at the start of the stripped, lowercased text and
    ignores what follows it. It raises the malformed-time error exactly
    when the text does not start with such a pattern whose hour, on the
    24-hour clock, is in 0..23 and whose minute is in 0..59; otherwise it
    returns that time. So "2:30 pmx" gives 14:30. *)
Theorem parse_time_string_spec (time_str : str) :
  let t := lower (strip time_str) in
  (forall h m ws suffix rest,
     t = h ++ minute_text m ++ ws ++ suffix ++ rest ->
     is_time_text h m ws suffix ->
     (in_range (hour24 (int h) suffix) (minute_of m) ->
      parse_time_string time_str
      = Ok (hm (hour24 (int h) suffix) (minute_of m))) /\
     (~ in_range (hour24 (int h) suffix) (minute_of m) ->
      parse_time_string time_str
      = Raise (ValueError (lit "Invalid time: " ++ t)))) /\
  (~ (exists h m ws suffix rest,
        t = h ++ minute_text m ++ ws ++ suffix ++ rest /\
        is_time_text h m ws suffix) ->
   parse_time_string time_str
   = Raise (ValueError (lit "Cannot parse time string: " ++ t))) /\
  (raises (parse_time_string time_str) <->
   ~ exists h m ws suffix rest,
       t = h ++ minute_text m ++ ws ++ suffix ++ rest /\
       is_time_text h m ws suffix /\
       in_range (hour24 (int h) suffix) (minute_of m)) /\
  parse_time_string (lit "2:30 pmx") = Ok (hm 14 30).
Proof.
  intros t. rewrite parse_time_string_regular. fold t.
  split; [| split; [| split]].
  - intros h m ws suffix rest Ht Hshape.
    by apply (parse_time_regular_matched t h m ws suffix rest).
  - intros Hn. unfold parse_time_regular.
    by rewrite (re_match_time_pattern_None _ Hn).
  - split.
    + intros Hr (h & m & ws & suffix & rest & Ht & Hshape & Hin).
      destruct (parse_time_regular_matched t h m ws suffix rest Ht Hshape)
        as [Hok _].
      by rewrite (Hok Hin) in Hr.
    + intros Hn.
      destruct (time_pattern t) as [|[[h m] suffix] l] eqn:Hp.
      * unfold parse_time_regular, re_match. by rewrite Hp.
      * assert (Hin : (h, m, suffix) ∈ time_pattern t)
          by (rewrite Hp; by left).
        apply elem_of_time_pattern in Hin as (ws & rest & Ht & Hshape).
        destruct (parse_time_regular_matched t h m ws suffix rest Ht Hshape)
          as [_ Hbad].
        rewrite Hbad; [done |]. intros Hin. apply Hn.
        by exists h, m, ws, suffix, rest.
  - by vm_compute.
Qed.

Lemma parse_time_string_spec_witness :
  parse_time_string (lit " 2:30 PM ")
  = Ok (hm (hour24 (int (lit "2")) (lit "pm")) (minute_of (Some (lit "30"))))
  /\
  parse_time_string (lit "13 pm")
  = Raise (ValueError (lit "Invalid time: " ++ lower (strip (lit "13 pm")))).
Proof.
  split.
  - assert (Ht : lower (strip (lit " 2:30 PM "))
                 = lit "2" ++ minute_text (Some (lit "30")) ++ lit " "
                   ++ lit "pm" ++ []) by (vm_compute; reflexivity).
    assert (Hs : is_time_text (lit "2") (Some (lit "30")) (lit " ") (lit "pm"))
      by (repeat split; auto; repeat constructor).
    assert (Hr : in_range (hour24 (int (lit "2")) (lit "pm"))
                          (minute_of (Some (lit "30"))))
      by (vm_compute; repeat split; discriminate).
    exact (proj1 (proj1 (parse_time_string_spec (lit " 2:30 PM "))
                    _ _ _ _ _ Ht Hs) Hr).
  - assert (Ht : lower (strip (lit "13 pm"))
                 = lit "13" ++ minute_text None ++ lit " " ++ lit "pm" ++ [])
      by (vm_compute; reflexivity).
    assert (Hs : is_time_text (lit "13") None (lit " ") (lit "pm"))
      by (repeat split; auto; repeat constructor).
    assert (Hr : ~ in_range (hour24 (int (lit "13")) (lit "pm"))
                            (minute_of None))
      by (vm_compute; intros [[_ H] _]; by apply H).
    exact (proj2 (proj1 (parse_time_string_spec (lit "13 pm"))
                    _ _ _ _ _ Ht Hs) Hr).
Defined.

Lemma last_app_r {A} (l1 l2 : list A) y :
  last l2 = Some y -> last (l1 ++ l2) = Some y.
Proof. intros H. by rewrite last_app, H. Qed.

(** The claim with the pattern required to cover the whole text fails on
    "2:30 pmx": the text is not hour[:minute] (am|pm), yet the call returns
    14:30. *)
Lemma parse_time_string_trailing_text :
  let time_str := lit "2:30 pmx" in
  ~ (raises (parse_time_string time_str) <->
     ~ exists h m ws suffix,
         lower (strip time_str) = h ++ minute_text m ++ ws ++ suffix /\
         is_time_text h m ws suffix /\
         in_range (hour24 (int h) suffix) (minute_of m)).
Proof.
  intros time_str [_ H].
  assert (Hr : raises (parse_time_string time_str)); [| by vm_compute in Hr].
  apply H. intros (h & m & ws & suffix & Heq & (_ & _ & _ & _ & Hs) & _).
  apply (f_equal last) in Heq.
  rewrite (last_app_r h _ "m"%char) in Heq; [by vm_compute in Heq |].
  do 2 apply last_app_r. by destruct Hs as [-> | ->].
Qed.

(** ** Only [ValueError] comes out of the hours grammar *)

Lemma time_new_raises h m e : time_new h m = Raise e -> is_ValueError e.
Proof. unfold time_new. repeat case_match; by intros [= <-]. Qed.

Lemma parse_time_string_raises s e :
  parse_time_string s = Raise e -> is_ValueError e.
Proof.
  rewrite parse_time_string_regular. unfold parse_time_regular.
  destruct (re_match _ _) as [[[g1 g2] g3]|]; [| by intros [= <-]].
  cbv zeta. destruct (time_new _ _) as [t|e'] eqn:Ht; [done |].
  apply time_new_raises in Ht. destruct e'; try done. by intros [= <-].
Qed.

Lemma parse_day_part_raises p e :
  parse_day_part p = Raise e -> is_ValueError e.
Proof. unfold parse_day_part. repeat case_match; by intros [= <-]. Qed.

Lemma parse_day_range_raises s e :
  parse_day_range s = Raise e -> is_ValueError e.
Proof.
  unfold parse_day_range.
  destruct (parse_day_parts _ _) as [days|e'] eqn:Hp; [done |].
  intros [= <-]. apply parse_day_parts_Raise in Hp as (p & _ & Hp).
  by eapply parse_day_part_raises.
Qed.

Lemma parse_time_range_raises s e :
  parse_time_range s = Raise e -> is_ValueError e.
Proof.
  unfold parse_time_range. destruct (negb _); [by intros [= <-] |].
  destruct (split_n _ _ _) as [|a [|b [|? ?]]]; try by intros [= <-].
  destruct (parse_time_string (strip a)) as [ta|ea] eqn:Ha; simpl.
  - destruct (parse_time_string (strip b)) as [tb|eb] eqn:Hb; simpl; [done |].
    intros [= <-]. by eapply parse_time_string_raises.
  - intros [= <-]. by eapply parse_time_string_raises.
Qed.

Lemma parse_parts_raises a b e :
  parse_parts a b = Raise e -> is_ValueError e.
Proof.
  unfold parse_parts.
  destruct (parse_day_range a) as [days|ea] eqn:Ha; simpl.
  - destruct (parse_time_range b) as [tr|eb] eqn:Hb; simpl; [done |].
    intros [= <-]. by eapply parse_time_range_raises.
  - intros [= <-]. by eapply parse_day_range_raises.
Qed.

Lemma fallback_parse_raises period e :
  fallback_parse period = Raise e -> is_ValueError e.
Proof.
  unfold fallback_parse. destruct (re_search _ _); [| by intros [= <-]].
  apply parse_parts_raises.
Qed.

Lemma parse_period_raises period e :
  parse_period period = Raise e -> is_ValueError e.
Proof.
  unfold parse_period. destruct (_ <? _)%nat; [by intros [= <-] |].
  destruct (primary_parse _) as [r|e'] eqn:Hp; [done |].
  apply parse_parts_raises in Hp. destruct e'; try done.
  apply fallback_parse_raises.
Qed.

Lemma parse_periods_raises periods m e :
  parse_periods periods m = Raise e -> is_ValueError e.
Proof.
  revert m. induction periods as [|p periods IH]; intros m; simpl; [done |].
  case_bool_decide; [apply IH |].
  destruct (parse_period (strip p)) as [[days tr]|e'] eqn:Hp; simpl.
  - apply IH.
  - intros [= <-]. by eapply parse_period_raises.
Qed.

Lemma parse_restaurant_hours_raises hours_str e :
  parse_restaurant_hours hours_str = Raise e -> is_ValueError e.
Proof. apply parse_periods_raises. Qed.

(** ** The two attempts on a period *)

Lemma split_n_length sep n s :
  length (split_n sep n s)
  = S (min n (length (filter (fun c => c = sep) s))).
Proof.
  revert n. induction s as [|c s IH]; intros [|n]; try done.
  rewrite filter_cons. cbn [split_n].
  destruct (Ascii.eqb_spec c sep) as [->|Hne].
  - rewrite decide_True by done. simpl. by rewrite IH.
  - rewrite decide_False by done. rewrite <- (IH (S n)).
    pose proof (IH (S n)) as Hl. by destruct (split_n sep (S n) s).
Qed.

(** [period.rsplit(' ', 3)] gives four pieces exactly when the period has
    at least three spaces. *)
Lemma rsplit_length period :
  length (rsplit " " 3 period)
  = S (min 3 (length (filter (fun c => c = " "%char) period))).
Proof.
  unfold rsplit. rewrite length_rev, length_map, split_n_length.
  do 2 f_equal. induction period as [|c period IH]; [done |].
  simpl. rewrite filter_app, length_app, IH, !filter_cons, filter_nil.
  case_decide; simpl; lia.
Qed.

(** A non-empty period that fails makes the whole parse fail. *)
Lemma parse_periods_period_raises periods m q :
  q ∈ periods -> strip q <> [] -> raises (parse_period (strip q)) ->
  raises (parse_periods periods m).
Proof.
  intros Hq Hne Hr. revert m.
  induction periods as [|p periods IH]; intros m; [by apply elem_of_nil in Hq |].
  simpl. apply elem_of_cons in Hq as [<-|Hq].
  - rewrite bool_decide_eq_false_2 by done.
    by destruct (parse_period (strip q)).
  - case_bool_decide; [by apply IH |].
    destruct (parse_period (strip p)) as [[days tr]|e]; simpl; [by apply IH | done].
Qed.

(** C2, as the code has it. A period that [rsplit(' ', 3)] cuts into fewer
    than four pieces (fewer than three spaces) fails at once, with no
    fallback. For a period with four pieces, the primary result is returned
    when the primary attempt succeeds; when it raises, the result is that
    of the fallback split at the first time found, so the period fails
    exactly when both attempts fail. A non-empty period that fails makes
    [parse_restaurant_hours] fail. *)
Theorem parse_period_fallback (period : str) :
  let parts := rsplit " " 3 period in
  ((length (filter (fun c => c = " "%char) period) < 3)%nat ->
   parse_period period
   = Raise (ValueError (lit "Cannot parse time period: " ++ period))) /\
  ((3 <= length (filter (fun c => c = " "%char) period))%nat ->
   (forall r, primary_parse parts = Ok r -> parse_period period = Ok r) /\
   (raises (primary_parse parts) ->
    parse_period period = fallback_parse period) /\
   (raises (parse_period period) <->
    raises (primary_parse parts) /\ raises (fallback_parse period))) /\
  (forall hours_str q,
     q ∈ map strip (split "/" hours_str) -> strip q = period ->
     period <> [] -> raises (parse_period period) ->
     raises (parse_restaurant_hours hours_str)).
Proof.
  intros parts. pose proof (rsplit_length period) as Hlen. fold parts in Hlen.
  split; [| split].
  - intros Hsp. unfold parse_period. fold parts.
    destruct (Nat.ltb_spec (length parts) 4); [done | lia].
  - intros Hsp.
    assert (Hpp : parse_period period =
                  match primary_parse parts with
                  | Ok r => Ok r
                  | Raise _ => fallback_parse period
                  end).
    { unfold parse_period. fold parts.
      destruct (Nat.ltb_spec (length parts) 4); [lia |].
      destruct (primary_parse parts) as [r|e] eqn:Hp; [done |].
      apply parse_parts_raises in Hp. by destruct e. }
    rewrite Hpp. destruct (primary_parse parts) as [r|e]; simpl.
    + split; [by intros ? [= <-] |]. split; [done |]. tauto.
    + split; [done |]. split; [done |]. tauto.
  - intros hours_str q Hq <- Hne Hr.
    by eapply parse_periods_period_raises.
Qed.

Lemma parse_period_fallback_witness :
  parse_period (lit "Mon 5pm-2am")
  = Raise (ValueError (lit "Cannot parse time period: " ++ lit "Mon 5pm-2am"))
  /\
  parse_period (lit "Mon-Thu, Sun 11:30 am - 10 pm")
  = fallback_parse (lit "Mon-Thu, Sun 11:30 am - 10 pm") /\
  parse_period (lit "Mon-Sat 11am - 10pm")
  = Ok ([0; 1; 2; 3; 4; 5], mk_TimeRange (hm 11 0) (hm 22 0)) /\
  raises (parse_restaurant_hours (lit "Mon 5 pm - 2 am / Tue 5pm-2am")).
Proof.
  split; [| split; [| split]].
  - assert (H : (length (filter (fun c => c = " "%char) (lit "Mon 5pm-2am"))
                 < 3)%nat) by (vm_compute; lia).
    exact (proj1 (parse_period_fallback (lit "Mon 5pm-2am")) H).
  - assert (H : (3 <= length (filter (fun c => c = " "%char)
                            (lit "Mon-Thu, Sun 11:30 am - 10 pm")))%nat)
      by (vm_compute; lia).
    assert (Hr : raises (primary_parse
                           (rsplit " " 3 (lit "Mon-Thu, Sun 11:30 am - 10 pm"))))
      by (vm_compute; exact I).
    exact (proj1 (proj2 (proj1 (proj2 (parse_period_fallback
                                         (lit "Mon-Thu, Sun 11:30 am - 10 pm")))
                           H)) Hr).
  - assert (H : (3 <= length (filter (fun c => c = " "%char)
                            (lit "Mon-Sat 11am - 10pm")))%nat)
      by (vm_compute; lia).
    assert (Hp : primary_parse (rsplit " " 3 (lit "Mon-Sat 11am - 10pm"))
                 = Ok ([0; 1; 2; 3; 4; 5], mk_TimeRange (hm 11 0) (hm 22 0)))
      by (vm_compute; reflexivity).
    exact (proj1 (proj1 (proj2 (parse_period_fallback
                                  (lit "Mon-Sat 11am - 10pm"))) H) _ Hp).
  - assert (Hq : lit "Tue 5pm-2am"
                 ∈ map strip (split "/" (lit "Mon 5 pm - 2 am / Tue 5pm-2am")))
      by (vm_compute; right; left).
    assert (Hs : strip (lit "Tue 5pm-2am") = lit "Tue 5pm-2am")
      by (vm_compute; reflexivity).
    assert (Hne : lit "Tue 5pm-2am" <> []) by discriminate.
    assert (Hr : raises (parse_period (lit "Tue 5pm-2am")))
      by (vm_compute; exact I).
    exact (proj2 (proj2 (parse_period_fallback (lit "Tue 5pm-2am")))
             _ _ Hq Hs Hne Hr).
Defined.

(** The claim without the guard fails on "Mon-Fri 11am-10pm": the
    fallback split recovers the days and the range, yet
    [parse_restaurant_hours] fails, because the period has fewer than four
    pieces and the fallback is never tried. *)
Lemma parse_restaurant_hours_short_period :
  let period := lit "Mon-Fri 11am-10pm" in
  fallback_parse period
  = Ok ([0; 1; 2; 3; 4], mk_TimeRange (hm 11 0) (hm 22 0)) /\
  parse_restaurant_hours period
  = Raise (ValueError (lit "Cannot parse time period: Mon-Fri 11am-10pm")) /\
  ~ (raises (parse_restaurant_hours period) -> raises (fallback_parse period)).
Proof.
  intros period. split; [by vm_compute |]. split; [by vm_compute |].
  intros H. by vm_compute in H.
Qed.

(** ** The CSV loader *)

Lemma load_rows_spec rows restaurants out :
  load_rows rows restaurants out
  = (out ++ omap warning_of rows, Ok (restaurants ++ omap restaurant_of rows)).
Proof.
  revert restaurants out.
  induction rows as [|row rows IH]; intros restaurants out.
  - simpl. by rewrite !app_nil_r.
  - destruct row as [|name [|hours [|? ?]]]; simpl; try apply IH.
    destruct (parse_restaurant_hours hours) as [schedule|e] eqn:Hh.
    + rewrite IH. by rewrite <- app_assoc.
    + apply parse_restaurant_hours_raises in Hh.
      destruct e; try done. rewrite IH. by rewrite <- app_assoc.
Qed.

(** ** When the CSV reader raises no error

    A text without carriage returns and of at most [field_limit]
    characters is read without error. *)

Lemma ends_at_lf_tail c line : ends_at_lf (c :: line) -> ends_at_lf line.
Proof. intros H l1 l2 ->. by apply (H (c :: l1) l2). Qed.

Lemma readlines_concat s : concat (readlines s) = s.
Proof.
  induction s as [|c s IH]; [done |]. simpl.
  destruct (Ascii.eqb c LF); simpl; [by rewrite IH |].
  destruct (readlines s) as [|l ls]; simpl in *; by rewrite <- IH.
Qed.

Lemma readlines_ends_at_lf s : Forall ends_at_lf (readlines s).
Proof.
  induction s as [|c s IH]; [constructor |]. simpl.
  destruct (Ascii.eqb_spec c LF) as [->|Hc].
  - constructor; [| done]. intros [|? [|? ?]] l2; by intros [=].
  - destruct IH as [|l ls Hl Hls]; simpl.
    + constructor; [| constructor]. intros [|? [|? ?]] l2; intros [=]; done.
    + constructor; [| done]. intros [|c' l1] l2; intros [=]; subst; [done |].
      by eapply Hl.
Qed.

Lemma parse_process_char_ok self c :
  state self <> EAT_CRNL -> c <> CR ->
  Z.of_nat (length (field self)) < field_limit ->
  exists self', parse_process_char self (Some c) = Ok self' /\
    (length (field self') <= S (length (field self)))%nat /\
    (state self' = EAT_CRNL -> c = LF).
Proof.
  intros Hst Hc Hlen.
  assert (Hadd : forall st, parse_add_char (mk_Reader (fields self) st (field self)) c
                 = Ok (mk_Reader (fields self) st (field self ++ [c]))).
  { intros st. unfold parse_add_char. simpl.
    destruct (Z.leb_spec field_limit (Z.of_nat (length (field self))));
      [lia | done]. }
  assert (Hcr : Ascii.eqb c CR = false) by by apply Ascii.eqb_neq.
  destruct self as [fs st f]. simpl in *.
  unfold parse_process_char, start_field, is_eol, set_state; simpl.
  destruct st; try done; rewrite ?Hcr, ?orb_false_r;
    destruct (Ascii.eqb_spec c LF) as [->|Hlf]; simpl;
    repeat (case_match; simpl); rewrite ?Hadd; simpl;
    eexists; (split; [reflexivity |]); simpl;
    rewrite ?length_app; simpl; split; (done || lia).
Qed.

Lemma parse_process_eol_ok self :
  exists self', parse_process_char self None = Ok self' /\
    (state self' = START_RECORD \/
     state self' = IN_QUOTED_FIELD /\ self' = self) /\
    (length (field self') <= length (field self))%nat.
Proof.
  destruct self as [fs st f].
  unfold parse_process_char, start_field, set_state. simpl.
  destruct st; simpl; eexists; (split; [reflexivity |]); simpl;
    split; auto; lia.
Qed.

Lemma process_line_ok line self :
  (state self = EAT_CRNL -> line = []) -> CR ∉ line -> ends_at_lf line ->
  Z.of_nat (length (field self) + length line) <= field_limit ->
  exists self', process_line self line = Ok self' /\
    (state self' = START_RECORD \/ state self' = IN_QUOTED_FIELD) /\
    (length (field self') <= length (field self) + length line)%nat.
Proof.
  revert self. induction line as [|c line IH]; intros self Hst Hcr Hlf Hlen.
  - simpl. destruct (parse_process_eol_ok self) as (self' & -> & Hs & Hl).
    exists self'. split; [done |]. split; [tauto | lia].
  - apply not_elem_of_cons in Hcr as [Hc Hcr]. simpl in Hlen.
    destruct (parse_process_char_ok self c) as (self1 & H1 & Hl1 & Hs1);
      [by intros ?%Hst | done | lia |].
    simpl. rewrite H1. simpl.
    destruct (IH self1) as (self' & H' & Hs' & Hl').
    + intros ->%Hs1. by apply (Hlf [] line).
    + done.
    + by eapply ends_at_lf_tail.
    + lia.
    + exists self'. split; [done |]. split; [done |]. simpl. lia.
Qed.

Lemma read_records_ok lines self :
  state self = START_RECORD \/ state self = IN_QUOTED_FIELD ->
  CR ∉ concat lines -> Forall ends_at_lf lines ->
  Z.of_nat (length (field self) + length (concat lines)) <= field_limit ->
  (read_records self lines).2 = None.
Proof.
  revert self.
  induction lines as [|line lines IH]; intros self Hst Hcr Hlf Hlen; simpl.
  - by destruct (_ || _).
  - simpl in Hcr, Hlen. rewrite length_app in Hlen.
    apply not_elem_of_app in Hcr as [Hcr1 Hcr2].
    apply Forall_cons in Hlf as [Hlf1 Hlf2].
    destruct (process_line_ok line self) as (self' & -> & Hs' & Hl');
      [by intros H; destruct Hst; congruence | done | done | lia |].
    case_bool_decide.
    + specialize (IH parse_reset). destruct (read_records parse_reset lines).
      simpl in *. apply IH; auto. lia.
    + apply IH; [tauto | done | done | lia].
Qed.

Lemma csv_reader_ok csv_content :
  CR ∉ csv_content -> Z.of_nat (length csv_content) <= field_limit ->
  (csv_reader csv_content).2 = None.
Proof.
  intros Hcr Hlen. unfold csv_reader. apply read_records_ok.
  - by left.
  - by rewrite readlines_concat.
  - apply readlines_ends_at_lf.
  - by rewrite readlines_concat.
Qed.

(** C6, as the code has it. When the CSV reader reads the text without
    error, as it does every text that has no carriage return and at most
    131072 characters, [parse_restaurants_from_csv] returns, in input order, the
    restaurants of the records after the first: a record whose field count
    is not two gives none and prints nothing, a record of two fields whose
    hours text fails to parse gives none and prints one warning, and any
    other record of two fields gives its restaurant. An error of the
    reader itself is not caught and the call raises it. The empty text and
    a text with a header only give the empty list. *)
Theorem parse_restaurants_from_csv_spec (csv_content : str) :
  let rows := (csv_reader csv_content).1 in
  ((csv_reader csv_content).2 = None ->
   parse_restaurants_from_csv csv_content
   = (omap warning_of (tail rows), Ok (omap restaurant_of (tail rows)))) /\
  (forall e, (csv_reader csv_content).2 = Some e ->
             (parse_restaurants_from_csv csv_content).2 = Raise e) /\
  (CR ∉ csv_content -> Z.of_nat (length csv_content) <= field_limit ->
   (csv_reader csv_content).2 = None) /\
  (forall row, length row <> 2%nat ->
               restaurant_of row = None /\ warning_of row = None) /\
  (forall name hours,
     (raises (parse_restaurant_hours hours) ->
      restaurant_of [name; hours] = None /\
      is_Some (warning_of [name; hours])) /\
     (forall schedule, parse_restaurant_hours hours = Ok schedule ->
      restaurant_of [name; hours] = Some (mk_Restaurant name schedule) /\
      warning_of [name; hours] = None)) /\
  parse_restaurants_from_csv [] = ([], Ok []) /\
  parse_restaurants_from_csv (lit "Restaurant Name,Hours") = ([], Ok []).
Proof.
  intros rows. subst rows.
  split; [| split; [| split; [| split; [| split; [| split]]]]].
  - unfold parse_restaurants_from_csv.
    destruct (csv_reader csv_content) as [rows err]. cbn [fst snd].
    intros ->. destruct rows as [|header rows]; [done |].
    by rewrite load_rows_spec.
  - unfold parse_restaurants_from_csv.
    destruct (csv_reader csv_content) as [rows err]. cbn [fst snd].
    intros e ->. destruct rows as [|header rows]; [done |].
    by rewrite load_rows_spec.
  - apply csv_reader_ok.
  - intros row Hlen. by destruct row as [|? [|? [|? ?]]].
  - intros name hours. unfold restaurant_of, warning_of. split.
    + intros Hr. destruct (parse_restaurant_hours hours) as [|[]]; by eauto.
    + by intros schedule ->.
  - by vm_compute.
  - by vm_compute.
Qed.

Lemma parse_restaurants_from_csv_spec_witness :
  ((csv_reader csv_two_rows).2 = None /\
   parse_restaurants_from_csv csv_two_rows
   = (omap warning_of (tail (csv_reader csv_two_rows).1),
      Ok (omap restaurant_of (tail (csv_reader csv_two_rows).1)))) /\
  (exists e, (csv_reader csv_with_bare_cr).2 = Some e /\
             (parse_restaurants_from_csv csv_with_bare_cr).2 = Raise e) /\
  (csv_reader csv_two_rows).2 = None.
Proof.
  split; [| split].
  - assert (H : (csv_reader csv_two_rows).2 = None)
      by (vm_compute; reflexivity).
    split; [exact H |].
    exact (proj1 (parse_restaurants_from_csv_spec csv_two_rows) H).
  - eexists.
    assert (H : (csv_reader csv_with_bare_cr).2 = Some _)
      by (vm_compute; reflexivity).
    split; [exact H |].
    exact (proj1 (proj2 (parse_restaurants_from_csv_spec csv_with_bare_cr))
             _ H).
  - apply (proj1 (proj2 (proj2 (parse_restaurants_from_csv_spec csv_two_rows)))).
    + apply contains_char_not_elem_of. vm_compute. reflexivity.
    + vm_compute. discriminate.
Defined.

(** The test of the suite on the two data rows: two restaurants, in input
    order, with seven and five days. *)
Example parse_restaurants_from_csv_two_rows :
  exists r1 r2,
    parse_restaurants_from_csv csv_two_rows = ([], Ok [r1; r2]) /\
    name r1 = lit "Test Restaurant" /\ name r2 = lit "Another Place" /\
    size (schedule r1) = 7%nat /\ size (schedule r2) = 5%nat.
Proof.
  eexists _, _. split; [vm_compute; reflexivity |].
  repeat split; vm_compute; reflexivity.
Qed.

(** The claim that the call never fails, fails on a text with a carriage
    return inside an unquoted field: the reader raises and nothing catches
    it. *)
Lemma parse_restaurants_from_csv_bare_cr :
  raises (parse_restaurants_from_csv csv_with_bare_cr).2 /\
  (parse_restaurants_from_csv csv_with_bare_cr).2
  = Raise (CsvError (lit "new-line character seen in unquoted field - do you need to open the file in universal-newline mode?")).
Proof. by vm_compute. Qed.

(** ** The order on strings *)

Lemma ord_inj c d : ord c = ord d -> c = d.
Proof.
  unfold ord. intros H. apply Nat2Z.inj in H.
  rewrite <- (ascii_nat_embedding c), <- (ascii_nat_embedding d).
  by rewrite H.
Qed.

Lemma str_leb_lex a b : str_leb a b = true <-> lex_le a b.
Proof.
  revert b. induction a as [|c a IH]; intros [|d b]; simpl.
  - split; [constructor | done].
  - split; [constructor | done].
  - split; [done | inversion 1].
  - destruct (Z.ltb_spec (ord c) (ord d)) as [Hlt|Hge].
    { split; [by constructor | done]. }
    destruct (Z.ltb_spec (ord d) (ord c)) as [Hgt|Hle].
    { split; [done |]. inversion 1; subst; lia. }
    assert (c = d) as -> by (apply ord_inj; lia).
    rewrite IH. split; [by constructor |]. inversion 1; subst; [lia | done].
Qed.

#[global] Instance str_le_total : Total str_le.
Proof.
  intros a. unfold str_le. induction a as [|c a IH]; intros [|d b]; simpl; auto.
  destruct (Z.ltb_spec (ord c) (ord d)), (Z.ltb_spec (ord d) (ord c));
    auto; lia.
Qed.

#[global] Instance str_le_trans : Transitive str_le.
Proof.
  intros a. unfold str_le.
  induction a as [|c a IH]; intros [|d b] [|e x]; simpl; try done.
  destruct (Z.ltb_spec (ord c) (ord d)), (Z.ltb_spec (ord d) (ord c)),
    (Z.ltb_spec (ord d) (ord e)), (Z.ltb_spec (ord e) (ord d)),
    (Z.ltb_spec (ord c) (ord e)), (Z.ltb_spec (ord e) (ord c));
    try done; try lia.
  apply IH.
Qed.

Lemma sorted_strs_sorted l : StronglySorted lex_le (sorted_strs l).
Proof.
  assert (H : StronglySorted str_le (sorted_strs l)).
  { apply StronglySorted_merge_sort; apply _. }
  induction H as [|x k _ IH Hx]; constructor; [done |].
  eapply Forall_impl; [exact Hx |]. intros y. apply str_leb_lex.
Qed.

Lemma sorted_strs_perm l : sorted_strs l ≡ₚ l.
Proof. apply merge_sort_Permutation. Qed.

(** ** The service *)

Lemma is_open_at_time_Exists ds t :
  is_open_at_time ds t = true
  <-> Exists (fun tr => contains_time tr t = true) (time_ranges ds).
Proof.
  unfold is_open_at_time. rewrite existsb_exists, Exists_exists.
  by setoid_rewrite <- list_elem_of_In.
Qed.

Lemma is_open_at_datetime_open_at r dt :
  is_open_at_datetime r dt = true <-> open_at r (weekday dt) (time_of dt).
Proof.
  unfold is_open_at_datetime, open_at.
  destruct (schedule r !! weekday dt) as [ds|].
  - rewrite is_open_at_time_Exists. split.
    + intros H. by exists ds.
    + by intros (ds' & [= <-] & H).
  - split; [done | by intros (? & [=] & _)].
Qed.

(** The accumulating loop of the queries collects the names of the
    restaurants that pass the test, in order. *)
Lemma collect_names (test : Restaurant -> bool) P `{!forall r, Decision (P r)}
    (rs : list Restaurant) (acc : list str) :
  (forall r, test r = true <-> P r) ->
  foldl (fun acc r => if test r then acc ++ [name r] else acc) acc rs
  = acc ++ (name <$> filter P rs).
Proof.
  intros Htest. revert acc. induction rs as [|r rs IH]; intros acc; simpl.
  - by rewrite app_nil_r.
  - rewrite IH, filter_cons. destruct (decide (P r)) as [Hp|Hp].
    + apply Htest in Hp. rewrite Hp. by rewrite <- app_assoc.
    + destruct (test r) eqn:Ht; [by apply Htest in Ht |]. done.
Qed.

Lemma load_returned_fails self c :
  load_fails c -> after (load_restaurants_from_content self c) = self.
Proof.
  unfold load_fails, load_restaurants_from_content.
  by destruct (parse_restaurants_from_csv c) as [out [rs|e]].
Qed.

Lemma load_all_fails self cs :
  Forall load_fails cs -> load_all self cs = self.
Proof.
  unfold load_all. induction 1 as [|c cs Hc _ IH]; simpl; [done |].
  by rewrite load_returned_fails.
Qed.

(** C7. [find_open_restaurants] raises the not-loaded error on a service
    that has not been loaded, in particular on a fresh service after any
    number of failed loads; on a loaded service, for a query that parses to
    a weekday and time of day, it returns the names of exactly the
    restaurants open then (the weekday is a key of the schedule and some
    range of that day contains the time), sorted lexicographically
    ascending; in every case the service is left as it was. *)
Theorem find_open_restaurants_spec
    (parse : str -> option datetime) (self : RestaurantService) (s : str) :
  (_loaded self = false ->
   returned (find_open_restaurants parse self s)
   = Raise (RuntimeError not_loaded_msg)) /\
  (forall cs, Forall load_fails cs ->
   returned (find_open_restaurants parse (load_all new_service cs) s)
   = Raise (RuntimeError not_loaded_msg)) /\
  (forall dt, _loaded self = true -> parse s = Some dt ->
   exists names,
     returned (find_open_restaurants parse self s) = Ok names /\
     names ≡ₚ name <$> filter (fun r => open_at r (weekday dt) (time_of dt))
                              (_restaurants self) /\
     StronglySorted lex_le names) /\
  after (find_open_restaurants parse self s) = self.
Proof.
  repeat split.
  - intros Hl. unfold find_open_restaurants. by rewrite Hl.
  - intros cs Hcs. by rewrite load_all_fails.
  - intros dt Hl Hp. unfold find_open_restaurants. rewrite Hl, Hp. simpl.
    eexists. split; [done |]. split; [| apply sorted_strs_sorted].
    rewrite sorted_strs_perm.
    rewrite (collect_names _ (fun r => open_at r (weekday dt) (time_of dt))).
    + done.
    + intros r. apply is_open_at_datetime_open_at.
  - unfold find_open_restaurants.
    destruct (_loaded self); simpl; [| done]. by destruct (parse s).
Qed.

(** A service holding one restaurant open every day 11:00-22:00, queried on
    a Monday at 15:30; and a fresh service. *)
Lemma find_open_restaurants_spec_witness :
  let r := mk_Restaurant (lit "Test Restaurant")
             (list_to_map ((fun d => (d, mk_DaySchedule
                                           [mk_TimeRange (hm 11 0) (hm 22 0)]))
                             <$> range 0 7)) in
  let self := mk_RestaurantService [r] true in
  let parse := fun _ : str => Some (mk_datetime 0 (hm 15 30)) in
  (exists names,
     returned (find_open_restaurants parse self (lit "2023-12-25T15:30:00"))
     = Ok names /\
     names ≡ₚ name <$> filter (fun r => open_at r 0 (hm 15 30)) [r] /\
     StronglySorted lex_le names) /\
  returned (find_open_restaurants parse new_service (lit "2023-12-25T15:30:00"))
  = Raise (RuntimeError not_loaded_msg).
Proof.
  intros r self parse. split.
  - exact (proj1 (proj2 (proj2 (find_open_restaurants_spec parse self
                                  (lit "2023-12-25T15:30:00"))))
             (mk_datetime 0 (hm 15 30)) eq_refl eq_refl).
  - exact (proj1 (find_open_restaurants_spec parse new_service
                    (lit "2023-12-25T15:30:00")) eq_refl).
Defined.

(** C9. [get_restaurants_open_on_day] checks the weekday before it checks
    that data is loaded: a weekday outside 0..6 raises the invalid-weekday
    error whatever the state of the service, and the not-loaded error is
    raised exactly for weekdays in 0..6 on a service that is not loaded. *)
Theorem get_restaurants_open_on_day_checks
    (self : RestaurantService) (wd : Z) :
  (~ (0 <= wd <= 6) ->
   returned (get_restaurants_open_on_day self wd)
   = Raise (ValueError
              (lit "Weekday must be between 0 (Monday) and 6 (Sunday)"))) /\
  (forall msg,
     returned (get_restaurants_open_on_day self wd) = Raise (RuntimeError msg)
     -> 0 <= wd <= 6 /\ _loaded self = false) /\
  (0 <= wd <= 6 -> _loaded self = false ->
   returned (get_restaurants_open_on_day self wd)
   = Raise (RuntimeError not_loaded_msg)).
Proof.
  unfold get_restaurants_open_on_day.
  destruct (Z.leb_spec 0 wd), (Z.leb_spec wd 6), (_loaded self); simpl;
    repeat split; intros; try done; try lia.
Qed.

Lemma get_restaurants_open_on_day_checks_witness :
  returned (get_restaurants_open_on_day new_service 7)
  = Raise (ValueError
             (lit "Weekday must be between 0 (Monday) and 6 (Sunday)")) /\
  returned (get_restaurants_open_on_day new_service (-1))
  = Raise (ValueError
             (lit "Weekday must be between 0 (Monday) and 6 (Sunday)")) /\
  returned (get_restaurants_open_on_day new_service 3)
  = Raise (RuntimeError not_loaded_msg).
Proof.
  split; [| split].
  - apply (proj1 (get_restaurants_open_on_day_checks new_service 7)). lia.
  - apply (proj1 (get_restaurants_open_on_day_checks new_service (-1))). lia.
  - apply (proj2 (proj2 (get_restaurants_open_on_day_checks new_service 3)));
      [lia | reflexivity].
Defined.

(** C8. Loading the same text twice in a row leaves the service as one load
    does: same state, hence same count and same answers to every query; a
    load that succeeds installs exactly the restaurants parsed from the
    text, whatever was loaded before, and one that fails changes nothing. *)
Theorem load_twice_same (self : RestaurantService) (csv_content : str) :
  let once := load_restaurants_from_content self csv_content in
  let twice := load_restaurants_from_content (after once) csv_content in
  after twice = after once /\
  returned twice = returned once /\
  get_restaurant_count (after twice) = get_restaurant_count (after once) /\
  (forall parse s,
     returned (find_open_restaurants parse (after twice) s)
     = returned (find_open_restaurants parse (after once) s)) /\
  (forall wd,
     returned (get_restaurants_open_on_day (after twice) wd)
     = returned (get_restaurants_open_on_day (after once) wd)) /\
  match (parse_restaurants_from_csv csv_content).2 with
  | Ok restaurants =>
      after once = mk_RestaurantService restaurants true /\
      after twice = mk_RestaurantService restaurants true
  | Raise _ => after once = self /\ after twice = self
  end.
Proof.
  intros once twice.
  assert (Hs : after twice = after once).
  { unfold twice, once, load_restaurants_from_content.
    destruct (parse_restaurants_from_csv csv_content) as [out [rs|e]]; simpl;
      done. }
  split; [done |]. split.
  { unfold twice, once, load_restaurants_from_content.
    by destruct (parse_restaurants_from_csv csv_content) as [out [rs|e]]. }
  rewrite Hs. repeat split; try done.
  unfold once, load_restaurants_from_content.
  by destruct (parse_restaurants_from_csv csv_content) as [out [rs|e]].
Qed.

(** * Further properties of the code *)

(** ** Stripping and lowercasing *)

Lemma lstrip_app_ws l s :
  Forall (fun c => isspace c = true) l -> lstrip (l ++ s) = lstrip s.
Proof. induction 1 as [|c l Hc _ IH]; [done |]. simpl. by rewrite Hc. Qed.

Lemma lstrip_decomp s :
  exists l, s = l ++ lstrip s /\ Forall (fun c => isspace c = true) l.
Proof.
  induction s as [|c s (l & Hs & Hl)]; [by exists [] |]. simpl.
  destruct (isspace c) eqn:Hc.
  - exists (c :: l). split; [by rewrite Hs at 1 | by constructor].
  - by exists [].
Qed.

Lemma lstrip_head s c : head (lstrip s) = Some c -> isspace c = false.
Proof.
  induction s as [|d s IH]; [done |]. simpl.
  destruct (isspace d) eqn:Hd; [done |]. by intros [= <-].
Qed.

Lemma lstrip_id s :
  (forall c, head s = Some c -> isspace c = false) -> lstrip s = s.
Proof. destruct s as [|c s]; [done |]. intros H. simpl. by rewrite (H c). Qed.

Lemma lstrip_all_ws s :
  Forall (fun c => isspace c = true) s -> lstrip s = [].
Proof. induction 1 as [|c s Hc _ IH]; [done |]. simpl. by rewrite Hc. Qed.

Lemma rstrip_app_ws s r :
  Forall (fun c => isspace c = true) r -> rstrip (s ++ r) = rstrip s.
Proof.
  intros Hr. unfold rstrip. rewrite rev_app_distr, lstrip_app_ws; [done |].
  by apply Forall_rev.
Qed.

Lemma rstrip_decomp s :
  exists r, s = rstrip s ++ r /\ Forall (fun c => isspace c = true) r.
Proof.
  unfold rstrip. destruct (lstrip_decomp (rev s)) as (l & Hs & Hl).
  exists (rev l). split; [| by apply Forall_rev].
  by rewrite <- rev_app_distr, <- Hs, rev_involutive.
Qed.

Lemma rstrip_last s c : last (rstrip s) = Some c -> isspace c = false.
Proof.
  unfold rstrip. rewrite <- (rev_involutive (lstrip (rev s))) at 1.
  rewrite rev_involutive. intros H. apply (lstrip_head (rev s)).
  destruct (lstrip (rev s)) as [|d t]; [done |].
  simpl in H. rewrite last_snoc in H. by injection H as ->.
Qed.

Lemma rstrip_head s c :
  head s = Some c -> isspace c = false -> head (rstrip s) = Some c.
Proof.
  intros Hh Hc. destruct (rstrip_decomp s) as (r & Hs & Hr).
  destruct (rstrip s) as [|d t] eqn:Ht.
  - simpl in Hs. subst s. destruct Hr as [|d r Hd _]; [done |].
    injection Hh as ->. congruence.
  - rewrite Hs in Hh. by injection Hh as ->.
Qed.

(** Whitespace around a text does not change what [strip] returns. *)
Lemma strip_app_ws l s r :
  Forall (fun c => isspace c = true) l ->
  Forall (fun c => isspace c = true) r ->
  strip (l ++ s ++ r) = strip s.
Proof.
  intros Hl Hr. unfold strip. rewrite lstrip_app_ws by done.
  destruct (lstrip_decomp s) as (l' & Hs & Hl').
  destruct (lstrip s) as [|c t] eqn:Ht.
  - rewrite lstrip_all_ws; [done |]. rewrite Hs, app_nil_r.
    by apply Forall_app.
  - rewrite Hs at 1. rewrite <- app_assoc, lstrip_app_ws by done.
    rewrite lstrip_id.
    + by apply rstrip_app_ws.
    + intros d [= <-]. apply (lstrip_head s). by rewrite Ht.
Qed.

Lemma strip_decomp s :
  exists l r, s = l ++ strip s ++ r /\
    Forall (fun c => isspace c = true) l /\
    Forall (fun c => isspace c = true) r.
Proof.
  destruct (lstrip_decomp s) as (l & Hs & Hl).
  destruct (rstrip_decomp (lstrip s)) as (r & Hs' & Hr).
  exists l, r. split; [| done]. unfold strip. by rewrite <- Hs'.
Qed.

Lemma strip_idemp s : strip (strip s) = strip s.
Proof.
  destruct (strip_decomp s) as (l & r & Hs & Hl & Hr).
  rewrite Hs at 2. by rewrite strip_app_ws.
Qed.

Lemma strip_head s c : head (strip s) = Some c -> isspace c = false.
Proof.
  unfold strip. intros H.
  destruct (rstrip_decomp (lstrip s)) as (r & Hs & _).
  destruct (rstrip (lstrip s)) as [|d t]; [done |]. injection H as ->.
  apply (lstrip_head s). by rewrite Hs.
Qed.

Lemma strip_last s c : last (strip s) = Some c -> isspace c = false.
Proof. apply rstrip_last. Qed.

Lemma lower_char_cases c :
  (lower_char c = c /\
   ~ (65 <= ord c <= 90 \/ (192 <= ord c <= 222 /\ ord c <> 215))) \/
  (ord (lower_char c) = ord c + 32 /\
   (65 <= ord c <= 90 \/ (192 <= ord c <= 222 /\ ord c <> 215))).
Proof.
  unfold lower_char. destruct (_ || _) eqn:Hu.
  - right.
    rewrite orb_true_iff, !andb_true_iff, negb_true_iff, !Z.leb_le,
      Z.eqb_neq in Hu.
    split; [| tauto]. unfold ord in *.
    rewrite nat_ascii_embedding by lia. lia.
  - left. split; [done |].
    rewrite orb_false_iff, !andb_false_iff, negb_false_iff, !Z.leb_gt,
      Z.eqb_eq in Hu. lia.
Qed.

Lemma isspace_lower_char c : isspace (lower_char c) = isspace c.
Proof.
  destruct (lower_char_cases c) as [[-> _]|[Ho Hu]]; [done |].
  unfold isspace. rewrite Ho.
  transitivity false; [| symmetry]; apply not_true_is_false;
    rewrite !orb_true_iff, !andb_true_iff, !Z.leb_le, !Z.eqb_eq; lia.
Qed.

Lemma lstrip_lower s : lstrip (lower s) = lower (lstrip s).
Proof.
  induction s as [|c s IH]; [done |]. simpl.
  rewrite isspace_lower_char. by destruct (isspace c).
Qed.

Lemma rev_lower s : rev (lower s) = lower (rev s).
Proof. unfold lower. symmetry. apply map_rev. Qed.

Lemma strip_lower s : strip (lower s) = lower (strip s).
Proof.
  unfold strip, rstrip.
  by rewrite lstrip_lower, rev_lower, lstrip_lower, rev_lower.
Qed.

Lemma isdigit_lower_char c : isdigit (lower_char c) = isdigit c.
Proof.
  destruct (lower_char_cases c) as [[-> _]|[Ho Hu]]; [done |].
  unfold isdigit. rewrite Ho.
  transitivity false; [| symmetry]; apply not_true_is_false;
    rewrite !andb_true_iff, !Z.leb_le; lia.
Qed.

Lemma lower_char_idemp c : lower_char (lower_char c) = lower_char c.
Proof.
  destruct (lower_char_cases c) as [[H _]|[Ho Hu]]; [by rewrite !H |].
  destruct (lower_char_cases (lower_char c)) as [[H _]|[_ Hu']]; [done |].
  rewrite Ho in Hu'. lia.
Qed.

Lemma lower_idemp s : lower (lower s) = lower s.
Proof.
  unfold lower. rewrite map_map. apply map_ext. apply lower_char_idemp.
Qed.

(** ** Time ranges and day schedules *)

Lemma time_leb_refl a : time_leb a a = true.
Proof. unfold time_leb. by rewrite (proj2 (time_cmp_Eq a a) eq_refl). Qed.

Lemma time_geb_refl a : time_geb a a = true.
Proof. unfold time_geb. by rewrite (proj2 (time_cmp_Eq a a) eq_refl). Qed.

Lemma time_leb_antisym a b :
  time_leb a b = true -> time_leb b a = true -> a = b.
Proof.
  unfold time_leb. rewrite (time_cmp_antisym a b).
  destruct (time_cmp a b) eqn:Hc; simpl; try done.
  intros _ _. by apply time_cmp_Eq.
Qed.

(** X1. Every time range contains its own start and its own end. A range
    whose start and end are the same instant contains that instant and no
    other: it is not read as "all day". *)
Theorem contains_time_ends (tr : TimeRange) :
  contains_time tr (start tr) = true /\
  contains_time tr (end_ tr) = true /\
  (start tr = end_ tr ->
   forall t, contains_time tr t = true <-> t = start tr).
Proof.
  unfold contains_time. split; [| split].
  - destruct (time_leb (start tr) (end_ tr)) eqn:Hle.
    + by rewrite time_leb_refl.
    + by rewrite time_geb_refl.
  - destruct (time_leb (start tr) (end_ tr)) eqn:Hle.
    + by rewrite time_leb_refl.
    + by rewrite time_leb_refl, orb_true_r.
  - intros <- t. rewrite time_leb_refl, andb_true_iff. split.
    + intros [H1 H2]. by apply time_leb_antisym.
    + intros ->. by rewrite time_leb_refl.
Qed.

Lemma contains_time_ends_witness :
  contains_time (mk_TimeRange (hm 0 0) (hm 0 0)) (hm 0 1) = true
  <-> hm 0 1 = hm 0 0.
Proof.
  exact (proj2 (proj2 (contains_time_ends (mk_TimeRange (hm 0 0) (hm 0 0))))
           eq_refl (hm 0 1)).
Defined.

(** X2. A day schedule with no range is open at no time; a schedule is open
    at a time exactly when one of its ranges contains it, so appending
    ranges gives the disjunction and the order of the ranges does not
    matter. *)
Theorem is_open_at_time_ranges (t : time) :
  is_open_at_time (mk_DaySchedule []) t = false /\
  (forall l1 l2,
     is_open_at_time (mk_DaySchedule (l1 ++ l2)) t
     = is_open_at_time (mk_DaySchedule l1) t
       || is_open_at_time (mk_DaySchedule l2) t) /\
  (forall a b, time_ranges a ≡ₚ time_ranges b ->
               is_open_at_time a t = is_open_at_time b t).
Proof.
  split; [done |]. split.
  - intros l1 l2. unfold is_open_at_time. simpl. apply existsb_app.
  - intros a b Hp. unfold is_open_at_time.
    induction Hp as [|x l l' _ IH|x y l|l l' l'' _ IH1 _ IH2]; simpl.
    + done.
    + by rewrite IH.
    + by rewrite !orb_assoc, (orb_comm (contains_time y t)).
    + by rewrite IH1.
Qed.

Lemma is_open_at_time_ranges_witness :
  let lunch := mk_TimeRange (hm 11 0) (hm 14 0) in
  let dinner := mk_TimeRange (hm 17 0) (hm 22 0) in
  is_open_at_time (mk_DaySchedule [lunch; dinner]) (hm 18 0)
  = is_open_at_time (mk_DaySchedule [dinner; lunch]) (hm 18 0).
Proof.
  intros lunch dinner.
  apply (proj2 (proj2 (is_open_at_time_ranges (hm 18 0)))
           (mk_DaySchedule [lunch; dinner]) (mk_DaySchedule [dinner; lunch])).
  apply Permutation_swap.
Defined.

(** ** More on the time parser *)

Lemma time_new_Ok h m t : time_new h m = Ok t -> t = hm h m /\ in_range h m.
Proof.
  unfold time_new, in_range.
  destruct (Z.leb_spec 0 h), (Z.leb_spec h 23); simpl; try done.
  destruct (Z.leb_spec 0 m), (Z.leb_spec m 59); simpl; try done.
  intros [= <-]. split; [done | lia].
Qed.

Lemma parse_time_string_on_minute s t :
  parse_time_string s = Ok t -> on_minute t.
Proof.
  rewrite parse_time_string_regular. unfold parse_time_regular.
  destruct (re_match _ _) as [[[g1 g2] g3]|]; [| done]. cbv zeta.
  destruct (time_new _ _) as [t'|[]] eqn:Ht; try done.
  intros [= <-]. apply time_new_Ok in Ht as [-> [Hh Hm]]. done.
Qed.

(** X4. [parse_time_string] ignores whitespace around the text and the
    case of its letters: texts that differ only in these give the same
    result, the same time or the same error. *)
Theorem parse_time_string_ignores_space_and_case (time_str : str) :
  (forall l r,
     Forall (fun c => isspace c = true) l ->
     Forall (fun c => isspace c = true) r ->
     parse_time_string (l ++ time_str ++ r) = parse_time_string time_str) /\
  (forall other, lower other = lower time_str ->
                 parse_time_string other = parse_time_string time_str) /\
  parse_time_string (lower time_str) = parse_time_string time_str.
Proof.
  split; [| split].
  - intros l r Hl Hr. unfold parse_time_string. by rewrite strip_app_ws.
  - intros other Ho. unfold parse_time_string.
    by rewrite <- !strip_lower, Ho.
  - unfold parse_time_string. by rewrite strip_lower, lower_idemp.
Qed.

Lemma parse_time_string_ignores_space_and_case_witness :
  parse_time_string (lit "  " ++ lit "2:30 pm" ++ lit " ")
  = parse_time_string (lit "2:30 pm") /\
  parse_time_string (lit "2:30 PM") = parse_time_string (lit "2:30 pm").
Proof.
  split.
  - apply (proj1 (parse_time_string_ignores_space_and_case (lit "2:30 pm")));
      by repeat constructor.
  - by apply (proj1 (proj2 (parse_time_string_ignores_space_and_case
                              (lit "2:30 pm")))).
Defined.

(** ** More on the day-list parser *)

Lemma split_nonempty sep s : split sep s <> [].
Proof.
  destruct s as [|c s]; simpl; [done |].
  destruct (Ascii.eqb c sep); [done |]. by destruct (split sep s).
Qed.

Lemma parse_day_part_nonempty p ds : parse_day_part p = Ok ds -> ds <> [].
Proof.
  unfold parse_day_part. destruct (contains_char _ _).
  - destruct (split_n _ _ _) as [|a [|b [|? ?]]]; try done.
    destruct (dict_get day_mapping (strip a)) as [i|] eqn:Hi; [| done].
    destruct (dict_get day_mapping (strip b)) as [j|] eqn:Hj; [| done].
    apply day_mapping_range in Hi, Hj.
    destruct (Z.leb_spec i j); intros [= <-] Hnil.
    + assert (H' : i ∈ range i (j + 1)) by (apply elem_of_range; lia).
      rewrite Hnil in H'. by apply elem_of_nil in H'.
    + assert (H' : i ∈ range i 7 ++ range 0 (j + 1))
        by (rewrite elem_of_app, !elem_of_range; lia).
      rewrite Hnil in H'. by apply elem_of_nil in H'.
  - destruct (dict_get day_mapping (strip p)); by intros [= <-].
Qed.

Lemma sorted_set_NoDup l : NoDup (sorted_set l).
Proof.
  unfold sorted_set, sorted_ints. rewrite merge_sort_Permutation.
  apply NoDup_elements.
Qed.

Lemma parse_day_range_NoDup s days :
  parse_day_range s = Ok days -> NoDup days.
Proof.
  unfold parse_day_range. destruct (parse_day_parts _ _); [| done].
  intros [= <-]. apply sorted_set_NoDup.
Qed.

Lemma parse_day_range_nonempty s days :
  parse_day_range s = Ok days -> days <> [].
Proof.
  unfold parse_day_range.
  destruct (parse_day_parts _ _) as [l|] eqn:Hl; [| done].
  intros [= <-].
  apply parse_day_parts_Ok in Hl as (dss & Hdss & ->). simpl.
  pose proof (split_nonempty "," (lower (strip s))) as Hne.
  destruct Hdss as [|p ds ps dss' Hp _]; [done |].
  apply parse_day_part_nonempty in Hp.
  destruct ds as [|d ds]; [done |]. intros Hnil.
  assert (Hd : d ∈ sorted_set (concat ((d :: ds) :: dss')))
    by (apply elem_of_sorted_set; simpl; by left).
  rewrite Hnil in Hd. by apply elem_of_nil in Hd.
Qed.

(** X5. A day list that parses gives at least one weekday and at most
    seven, each in 0..6 and none twice. *)
Theorem parse_day_range_days (day_str : str) (days : list Z) :
  parse_day_range day_str = Ok days ->
  days <> [] /\ Forall (fun d => 0 <= d <= 6) days /\ NoDup days /\
  (length days <= 7)%nat.
Proof.
  intros H.
  assert (Hr := parse_day_range_range _ _ H).
  assert (Hnd := parse_day_range_NoDup _ _ H).
  split; [by eapply parse_day_range_nonempty |].
  split; [done |]. split; [done |].
  change 7%nat with (length (seqZ 0 7)).
  apply submseteq_length, NoDup_submseteq; [done |].
  intros d Hd. rewrite Forall_forall in Hr. specialize (Hr d Hd).
  apply elem_of_seqZ. lia.
Qed.

Lemma parse_day_range_days_witness :
  [0; 5; 6] <> [] /\ Forall (fun d => 0 <= d <= 6) [0; 5; 6] /\
  NoDup [0; 5; 6] /\ (length [0; 5; 6] <= 7)%nat.
Proof.
  assert (H : parse_day_range (lit "Sat - Mon") = Ok [0; 5; 6])
    by (vm_compute; reflexivity).
  exact (parse_day_range_days _ _ H).
Defined.

(** ** The schedule a text of hours gives *)

Lemma parse_period_NoDup period days tr :
  parse_period period = Ok (days, tr) -> NoDup days.
Proof.
  assert (Hparts : forall a b, parse_parts a b = Ok (days, tr) -> NoDup days).
  { intros a b. unfold parse_parts.
    destruct (parse_day_range a) as [ds|] eqn:Ha; [| done]. simpl.
    destruct (parse_time_range b); [| done]. intros [= <- _].
    by eapply parse_day_range_NoDup. }
  unfold parse_period. destruct (_ <? _)%nat; [done |].
  unfold primary_parse, fallback_parse.
  destruct (parse_parts _ _) as [[ds t]|[]] eqn:H1; try done.
  - intros [= <- <-]. by eapply Hparts.
  - destruct (re_search _ _); [| done]. apply Hparts.
Qed.

(** The inner loop over the days of one period. *)
Lemma add_ranges_lookup tr days (m : gmap Z DaySchedule) d :
  NoDup days ->
  foldl (add_range tr) m days !! d =
  if decide (d ∈ days) then
    Some (mk_DaySchedule (from_option time_ranges [] (m !! d) ++ [tr]))
  else m !! d.
Proof.
  intros Hnd. revert m.
  induction Hnd as [|day days Hday _ IH]; intros m.
  - destruct (decide (d ∈ [])) as [H|_]; [by apply elem_of_nil in H | done].
  - cbn [foldl]. rewrite IH, !add_range_lookup.
    destruct (decide (d ∈ days)) as [Hin|Hnin];
      destruct (decide (d = day)) as [->|Hne];
      destruct (decide (_ ∈ _ :: _)) as [Hc|Hc]; try done.
    + exfalso. apply Hc. by right.
    + exfalso. apply Hc. by left.
    + by apply elem_of_cons in Hc as [?|?].
Qed.

Lemma ranges_on_cons d days tr parsed :
  ranges_on d ((days, tr) :: parsed)
  = (if decide (d ∈ days) then [tr] else []) ++ ranges_on d parsed.
Proof.
  unfold ranges_on. rewrite filter_cons. simpl.
  by destruct (decide (d ∈ days)).
Qed.

(** The loop over the periods, started on a schedule [m]: either every
    non-blank period parses and each day gets the ranges of the periods
    that list it, after the ranges it had; or the loop raises the error of
    the first period that fails. *)
Lemma parse_periods_spec ps (m : gmap Z DaySchedule) :
  match parse_periods ps m with
  | Ok m' =>
      exists parsed,
        Forall2 (fun p r => parse_period p = Ok r)
                (filter (fun p => p <> []) (strip <$> ps)) parsed /\
        forall d,
          m' !! d =
          match ranges_on d parsed with
          | [] => m !! d
          | l => Some (mk_DaySchedule
                         (from_option time_ranges [] (m !! d) ++ l))
          end
  | Raise e =>
      exists ps1 p ps2,
        filter (fun p => p <> []) (strip <$> ps) = ps1 ++ p :: ps2 /\
        Forall (fun q => exists r, parse_period q = Ok r) ps1 /\
        parse_period p = Raise e
  end.
Proof.
  revert m. induction ps as [|p ps IH]; intros m.
  - exists []. split; [constructor | done].
  - cbn [parse_periods]. rewrite fmap_cons, filter_cons.
    case_bool_decide as Hb.
    + rewrite decide_False by (by intros ?). apply IH.
    + rewrite decide_True by done.
      destruct (parse_period (strip p)) as [[days tr]|e] eqn:Hp; simpl.
      * specialize (IH (foldl (add_range tr) m days)).
        pose proof (parse_period_NoDup _ _ _ Hp) as Hnd.
        destruct (parse_periods ps _) as [m'|e].
        -- destruct IH as (parsed & Hall & Hlook).
           exists ((days, tr) :: parsed). split; [by constructor |].
           intros d. rewrite Hlook, ranges_on_cons.
           rewrite (add_ranges_lookup _ _ _ _ Hnd).
           destruct (decide (d ∈ days)); simpl.
           ++ destruct (ranges_on d parsed); simpl; [done |].
              by rewrite <- app_assoc.
           ++ done.
        -- destruct IH as (ps1 & q & ps2 & Heq & Hok & Hq).
           exists (strip p :: ps1), q, ps2. rewrite Heq.
           split; [done |]. split; [| done]. constructor; [| done]. eauto.
      * exists [], (strip p), (filter (fun p => p <> []) (strip <$> ps)).
        split; [done |]. split; [constructor | done].
Qed.

Lemma strip_periods_of hours_str :
  filter (fun p => p <> []) (strip <$> map strip (split "/" hours_str))
  = periods_of hours_str.
Proof.
  unfold periods_of. f_equal.
  change (map strip (map strip (split "/" hours_str))
          = map strip (split "/" hours_str)).
  rewrite map_map. apply map_ext. intros p. apply strip_idemp.
Qed.

Lemma Forall2_parse_unique ps (rs rs' : list (list Z * TimeRange)) :
  Forall2 (fun p r => parse_period p = Ok r) ps rs ->
  Forall2 (fun p r => parse_period p = Ok r) ps rs' -> rs = rs'.
Proof.
  intros H. revert rs'. induction H as [|p r ps rs Hp _ IH]; intros rs' H'.
  - by inversion H'.
  - inversion H' as [|? r' ? rs'' Hp' Hrest]; subst.
    rewrite Hp in Hp'. injection Hp' as <-. f_equal. by apply IH.
Qed.

(** X6. When every non-blank period of an hours text parses,
    [parse_restaurant_hours] returns the schedule in which each weekday
    holds the ranges of exactly the periods that list the day, in the order
    of the text, and a weekday that no period lists is absent. Every
    successful result arises this way. *)
Theorem parse_restaurant_hours_lookup (hours_str : str) :
  (forall parsed,
     Forall2 (fun p r => parse_period p = Ok r) (periods_of hours_str) parsed ->
     exists schedule,
       parse_restaurant_hours hours_str = Ok schedule /\
       forall d,
         schedule !! d =
         match ranges_on d parsed with
         | [] => None
         | l => Some (mk_DaySchedule l)
         end) /\
  (forall schedule,
     parse_restaurant_hours hours_str = Ok schedule ->
     exists parsed,
       Forall2 (fun p r => parse_period p = Ok r)
               (periods_of hours_str) parsed).
Proof.
  pose proof (parse_periods_spec (map strip (split "/" hours_str)) ∅) as H.
  rewrite strip_periods_of in H. unfold parse_restaurant_hours. cbv zeta.
  destruct (parse_periods _ ∅) as [m|e]; split.
  - intros parsed Hall. destruct H as (parsed' & Hall' & Hlook).
    rewrite (Forall2_parse_unique _ _ _ Hall Hall').
    exists m. split; [done |]. intros d. rewrite Hlook, lookup_empty.
    by destruct (ranges_on d parsed').
  - intros schedule _. destruct H as (parsed & Hall & _). by exists parsed.
  - intros parsed Hall. exfalso.
    destruct H as (ps1 & p & ps2 & Heq & _ & Hp). rewrite Heq in Hall.
    apply Forall2_app_inv_l in Hall as (rs1 & rs2 & _ & Hall & _).
    inversion Hall as [|? r ? ? Hr _]; subst. congruence.
  - done.
Qed.

Lemma parse_restaurant_hours_lookup_witness :
  let lunch := mk_TimeRange (hm 11 0) (hm 14 0) in
  let dinner := mk_TimeRange (hm 17 0) (hm 22 0) in
  exists schedule,
    parse_restaurant_hours (lit "Mon-Tue 11 am - 2 pm / Tue-Wed 5 pm - 10 pm")
    = Ok schedule /\
    forall d,
      schedule !! d =
      match ranges_on d [([0; 1], lunch); ([1; 2], dinner)] with
      | [] => None
      | l => Some (mk_DaySchedule l)
      end.
Proof.
  intros lunch dinner.
  apply (proj1 (parse_restaurant_hours_lookup
                  (lit "Mon-Tue 11 am - 2 pm / Tue-Wed 5 pm - 10 pm"))).
  change (periods_of (lit "Mon-Tue 11 am - 2 pm / Tue-Wed 5 pm - 10 pm"))
    with [lit "Mon-Tue 11 am - 2 pm"; lit "Tue-Wed 5 pm - 10 pm"].
  repeat constructor; vm_compute; reflexivity.
Defined.

(** X7. [parse_restaurant_hours] fails exactly when some non-blank period
    fails, and then with the error of the first such period; periods after
    it are not looked at. *)
Theorem parse_restaurant_hours_first_error (hours_str : str) (e : exn) :
  parse_restaurant_hours hours_str = Raise e <->
  exists ps1 p ps2,
    periods_of hours_str = ps1 ++ p :: ps2 /\
    Forall (fun q => exists r, parse_period q = Ok r) ps1 /\
    parse_period p = Raise e.
Proof.
  pose proof (parse_periods_spec (map strip (split "/" hours_str)) ∅) as H.
  rewrite strip_periods_of in H. unfold parse_restaurant_hours. cbv zeta.
  destruct (parse_periods _ ∅) as [m|e']; split.
  - done.
  - intros (ps1 & p & ps2 & Heq & _ & Hp). exfalso.
    destruct H as (parsed & Hall & _). rewrite Heq in Hall.
    apply Forall2_app_inv_l in Hall as (rs1 & rs2 & _ & Hall & _).
    inversion Hall as [|? r ? ? Hr _]; subst. congruence.
  - by intros [= <-].
  - intros (ps1 & p & ps2 & Heq & Hok & Hp).
    destruct H as (ps1' & p' & ps2' & Heq' & Hok' & Hp').
    rewrite Heq in Heq'.
    assert (Hlen : length ps1 = length ps1').
    { destruct (Nat.lt_trichotomy (length ps1) (length ps1'))
        as [Hlt|[Heq1|Hgt]]; [| done |]; exfalso.
      - assert (Hl : ps1' !! length ps1 = Some p).
        { rewrite <- (lookup_app_l _ (p' :: ps2')) by done.
          rewrite <- Heq'. by rewrite list_lookup_middle. }
        rewrite Forall_forall in Hok'.
        destruct (Hok' p) as [r Hr]; [by eapply list_elem_of_lookup_2 |].
        congruence.
      - assert (Hl : ps1 !! length ps1' = Some p').
        { rewrite <- (lookup_app_l _ (p :: ps2)) by done.
          rewrite Heq'. by rewrite list_lookup_middle. }
        rewrite Forall_forall in Hok.
        destruct (Hok p') as [r Hr]; [by eapply list_elem_of_lookup_2 |].
        congruence. }
    apply app_inj_1 in Heq' as [_ [= <- _]]; [| done]. congruence.
Qed.

Lemma parse_period_nonempty period days tr :
  parse_period period = Ok (days, tr) -> days <> [].
Proof.
  assert (Hparts : forall a b, parse_parts a b = Ok (days, tr) -> days <> []).
  { intros a b. unfold parse_parts.
    destruct (parse_day_range a) as [ds|] eqn:Ha; [| done]. simpl.
    destruct (parse_time_range b); [| done]. intros [= <- _].
    by eapply parse_day_range_nonempty. }
  unfold parse_period. destruct (_ <? _)%nat; [done |].
  unfold primary_parse, fallback_parse.
  destruct (parse_parts _ _) as [[ds t]|[]] eqn:H1; try done.
  - intros [= <- <-]. by eapply Hparts.
  - destruct (re_search _ _); [| done]. apply Hparts.
Qed.

(** X8. [parse_restaurant_hours] returns the empty schedule exactly for a
    text with no non-blank period, such as the empty text or a lone slash:
    such a text is not an error, and any period that parses puts at least
    one weekday in the schedule. *)
Theorem parse_restaurant_hours_empty (hours_str : str) :
  (parse_restaurant_hours hours_str = Ok ∅ <-> periods_of hours_str = []) /\
  parse_restaurant_hours [] = Ok ∅ /\
  parse_restaurant_hours (lit " / ") = Ok ∅.
Proof.
  split; [| split; by vm_compute].
  pose proof (parse_periods_spec (map strip (split "/" hours_str)) ∅) as H.
  rewrite strip_periods_of in H. unfold parse_restaurant_hours. cbv zeta.
  destruct (parse_periods _ ∅) as [m|e]; split.
  - intros [= ->]. destruct H as (parsed & Hall & Hlook).
    destruct Hall as [|p [days tr] ps parsed Hp _]; [done |]. exfalso.
    pose proof (parse_period_nonempty _ _ _ Hp) as Hne.
    destruct days as [|d days]; [done |].
    specialize (Hlook d). rewrite ranges_on_cons, lookup_empty in Hlook.
    rewrite decide_True in Hlook by (by left). done.
  - intros Hnil. rewrite Hnil in H. destruct H as (parsed & Hall & Hlook).
    inversion Hall; subst. f_equal. apply map_eq. intros d.
    by rewrite Hlook.
  - done.
  - intros Hnil. rewrite Hnil in H.
    destruct H as (ps1 & p & ps2 & Heq & _). by destruct ps1.
Qed.


(** ** Times in what the parsers return *)

Lemma parse_time_range_on_minute s tr :
  parse_time_range s = Ok tr -> on_minute (start tr) /\ on_minute (end_ tr).
Proof.
  unfold parse_time_range. destruct (negb _); [done |].
  destruct (split_n _ _ _) as [|a [|b [|? ?]]]; try done.
  destruct (parse_time_string (strip a)) as [ta|] eqn:Ha; [| done].
  destruct (parse_time_string (strip b)) as [tb|] eqn:Hb; [| done].
  intros [= <-]. simpl.
  split; by eapply parse_time_string_on_minute.
Qed.

Lemma parse_period_time_range period days tr :
  parse_period period = Ok (days, tr) ->
  exists text, parse_time_range text = Ok tr.
Proof.
  assert (Hparts : forall a b, parse_parts a b = Ok (days, tr) ->
                     parse_time_range b = Ok tr).
  { intros a b. unfold parse_parts.
    destruct (parse_day_range a) as [ds|]; [| done]. simpl.
    destruct (parse_time_range b); [| done]. by intros [= _ <-]. }
  unfold parse_period. destruct (_ <? _)%nat; [done |].
  unfold primary_parse, fallback_parse.
  destruct (parse_parts _ _) as [[ds t]|[]] eqn:H1; try done.
  - intros [= <- <-]. eauto.
  - destruct (re_search _ _); [| done]. eauto.
Qed.

(** X3. Every time the parsers return is a time of day on the minute, with
    hour in 0..23, minute in 0..59 and no seconds or microseconds: the time
    from [parse_time_string], both ends of a range from [parse_time_range],
    and both ends of every range in a schedule from
    [parse_restaurant_hours]. *)
Theorem parsed_times_on_minute :
  (forall s t, parse_time_string s = Ok t -> on_minute t) /\
  (forall s tr, parse_time_range s = Ok tr ->
                on_minute (start tr) /\ on_minute (end_ tr)) /\
  (forall s (schedule : gmap Z DaySchedule) d ds tr,
     parse_restaurant_hours s = Ok schedule ->
     schedule !! d = Some ds -> tr ∈ time_ranges ds ->
     on_minute (start tr) /\ on_minute (end_ tr)).
Proof.
  split; [apply parse_time_string_on_minute |].
  split; [apply parse_time_range_on_minute |].
  intros s schedule d ds tr Hs Hd Htr.
  pose proof (parse_periods_spec (map strip (split "/" s)) ∅) as H.
  unfold parse_restaurant_hours in Hs. cbv zeta in Hs. rewrite Hs in H.
  destruct H as (parsed & Hall & Hlook).
  rewrite Hlook, lookup_empty in Hd.
  assert (Hin : tr ∈ ranges_on d parsed).
  { destruct (ranges_on d parsed) as [|x l]; [done |].
    injection Hd as <-. done. }
  unfold ranges_on in Hin.
  apply list_elem_of_fmap in Hin as ([days tr'] & -> & Hin).
  apply list_elem_of_filter in Hin as [_ Hin].
  apply list_elem_of_lookup in Hin as [i Hi].
  destruct (Forall2_lookup_r _ _ _ _ _ Hall Hi) as (p & _ & Hp).
  apply parse_period_time_range in Hp as [text Ht].
  by eapply parse_time_range_on_minute.
Qed.

Lemma parsed_times_on_minute_witness :
  on_minute (hm 23 59) /\
  (on_minute (hm 17 0) /\ on_minute (hm 2 0)).
Proof.
  split.
  - assert (H : parse_time_string (lit "11:59 PM") = Ok (hm 23 59))
      by (vm_compute; reflexivity).
    exact (proj1 parsed_times_on_minute _ _ H).
  - assert (H : parse_time_range (lit "5 pm - 2 am")
                = Ok (mk_TimeRange (hm 17 0) (hm 2 0)))
      by (vm_compute; reflexivity).
    exact (proj1 (proj2 parsed_times_on_minute) _ _ H).
Defined.

(** ** The time-range parser *)

Lemma parse_time_string_message s e :
  parse_time_string s = Raise e ->
  exists t, e = ValueError (lit "Cannot parse time string: " ++ t) \/
            e = ValueError (lit "Invalid time: " ++ t).
Proof.
  rewrite parse_time_string_regular. unfold parse_time_regular.
  destruct (re_match _ _) as [[[g1 g2] g3]|]; [| intros [= <-]; eauto].
  cbv zeta. destruct (time_new _ _) as [t|e'] eqn:Ht; [done |].
  apply time_new_raises in Ht. destruct e'; try done.
  intros [= <-]. eauto.
Qed.

(** X9. [parse_time_range] raises the missing-separator error exactly on a
    text without a hyphen. Otherwise it cuts the text at its first hyphen
    and parses the two sides as times, the start first; whitespace around
    the hyphen does not matter and no order is asked between the two times,
    so an end before the start is accepted (an overnight range). *)
Theorem parse_time_range_spec (time_range_str : str) :
  (("-"%char ∉ time_range_str) <->
   parse_time_range time_range_str
   = Raise (ValueError
              (lit "No time range separator found: " ++ time_range_str))) /\
  (forall a b,
     time_range_str = a ++ "-"%char :: b -> ("-"%char ∉ a) ->
     parse_time_range time_range_str
     = (start_time ← parse_time_string a;
        end_time ← parse_time_string b;
        Ok (mk_TimeRange start_time end_time))).
Proof.
  assert (Hstrip : forall x, parse_time_string (strip x) = parse_time_string x).
  { intros x. unfold parse_time_string. by rewrite strip_idemp. }
  split.
  - unfold parse_time_range.
    destruct (contains_char "-" time_range_str) eqn:Hc; simpl.
    + apply contains_char_elem_of in Hc as Hin. split; [done |].
      apply list_elem_of_split_l in Hin as (a & b & -> & Ha).
      rewrite (split_n_first _ _ _ Ha), !Hstrip.
      destruct (parse_time_string a) as [ta|ea] eqn:Hta; simpl.
      * destruct (parse_time_string b) as [tb|eb] eqn:Htb; simpl; [done |].
        intros [= ->].
        by destruct (parse_time_string_message _ _ Htb) as (t & [[=]|[=]]).
      * intros [= ->].
        by destruct (parse_time_string_message _ _ Hta) as (t & [[=]|[=]]).
    + apply contains_char_not_elem_of in Hc. done.
  - intros a b -> Ha. unfold parse_time_range.
    assert (Hc : contains_char "-" (a ++ "-"%char :: b) = true).
    { apply contains_char_elem_of, elem_of_app. right. by left. }
    rewrite Hc. simpl. by rewrite (split_n_first _ _ _ Ha), !Hstrip.
Qed.

Lemma parse_time_range_spec_witness :
  parse_time_range (lit "5 pm - 2 am")
  = (start_time ← parse_time_string (lit "5 pm ");
     end_time ← parse_time_string (lit " 2 am");
     Ok (mk_TimeRange start_time end_time)).
Proof.
  apply (proj2 (parse_time_range_spec (lit "5 pm - 2 am"))
           (lit "5 pm ") (lit " 2 am") eq_refl).
  by apply contains_char_not_elem_of.
Defined.

(** ** What a load accounts for *)

Lemma omap_rows_length data :
  (length (omap restaurant_of data) + length (omap warning_of data)
   = length (filter (fun row : list str => length row = 2%nat) data))%nat.
Proof.
  induction data as [|row data IH]; [done |].
  rewrite filter_cons. cbn [omap list_omap].
  destruct row as [|name [|hours [|? ?]]]; simpl; try done.
  destruct (parse_restaurant_hours hours) as [m|[]]; simpl; lia.
Qed.

Lemma restaurant_of_Some row r :
  restaurant_of row = Some r ->
  exists hours, row = [name r; hours] /\
                parse_restaurant_hours hours = Ok (schedule r).
Proof.
  destruct row as [|n [|hours [|? ?]]]; simpl; try done.
  destruct (parse_restaurant_hours hours) as [m|] eqn:Hm; [| done].
  intros [= <-]. by exists hours.
Qed.

(** X10. When [parse_restaurants_from_csv] returns, every record after the
    header that has exactly two fields is accounted for, either by a
    restaurant in the result or by a warning line; every restaurant in the
    result carries the name of such a record and the schedule parsed from
    its hours, with weekday keys in 0..6 and no day without a range. *)
Theorem parse_restaurants_from_csv_accounts
    (csv_content : str) (out : list str) (restaurants : list Restaurant) :
  parse_restaurants_from_csv csv_content = (out, Ok restaurants) ->
  let data := tail (csv_reader csv_content).1 in
  (length restaurants + length out
   = length (filter (fun row : list str => length row = 2%nat) data))%nat /\
  Forall (fun r => exists hours,
            [name r; hours] ∈ data /\
            parse_restaurant_hours hours = Ok (schedule r) /\
            schedule_ok (schedule r)) restaurants.
Proof.
  unfold parse_restaurants_from_csv.
  destruct (csv_reader csv_content) as [rows err]. cbn [fst snd].
  intros H. cbv zeta.
  assert (Hres : out = omap warning_of (tail rows) /\
                 restaurants = omap restaurant_of (tail rows)).
  { destruct rows as [|header rows].
    - destruct err; by simplify_eq.
    - rewrite load_rows_spec in H. destruct err; by simplify_eq. }
  destruct Hres as [-> ->]. split; [apply omap_rows_length |].
  apply Forall_forall. intros r Hr.
  apply list_elem_of_omap in Hr as (row & Hrow & Hr).
  apply restaurant_of_Some in Hr as (hours & -> & Hh).
  exists hours. split; [done |]. split; [done |].
  apply parse_periods_ok in Hh; [done | by intros d ds].
Qed.

Lemma parse_restaurants_from_csv_accounts_witness :
  exists out restaurants,
    parse_restaurants_from_csv csv_two_rows = (out, Ok restaurants) /\
    (length restaurants + length out
     = length (filter (fun row : list str => length row = 2%nat)
                 (tail (csv_reader csv_two_rows).1)))%nat.
Proof.
  eexists _, _.
  assert (H : parse_restaurants_from_csv csv_two_rows = (_, Ok _))
    by (vm_compute; reflexivity).
  split; [exact H |].
  exact (proj1 (parse_restaurants_from_csv_accounts _ _ _ H)).
Defined.

(** ** More on the service *)

Lemma filter_sublist_impl {A} (P Q : A -> Prop)
    `{!forall x, Decision (P x)} `{!forall x, Decision (Q x)} (l : list A) :
  (forall x, P x -> Q x) -> filter P l `sublist_of` filter Q l.
Proof.
  intros Himp. induction l as [|x l IH]; [done |].
  rewrite !filter_cons.
  destruct (decide (P x)) as [Hp|Hp].
  - rewrite decide_True by auto. by constructor.
  - destruct (decide (Q x)); [by constructor | done].
Qed.

(** X11. On a loaded service and a weekday in 0..6,
    [get_restaurants_open_on_day] returns the names of exactly the
    restaurants whose schedule has the weekday as a key, sorted
    lexicographically ascending, and leaves the service as it was. *)
Theorem get_restaurants_open_on_day_spec
    (self : RestaurantService) (wd : Z) :
  0 <= wd <= 6 -> _loaded self = true ->
  exists names,
    returned (get_restaurants_open_on_day self wd) = Ok names /\
    names ≡ₚ name <$> filter (fun r => is_Some (schedule r !! wd))
                             (_restaurants self) /\
    StronglySorted lex_le names /\
    after (get_restaurants_open_on_day self wd) = self.
Proof.
  intros Hwd Hl. unfold get_restaurants_open_on_day.
  rewrite !(proj2 (Z.leb_le _ _)) by lia. rewrite Hl. simpl.
  eexists. split; [done |]. split; [| split; [apply sorted_strs_sorted | done]].
  rewrite sorted_strs_perm.
  rewrite (collect_names _ (fun r => is_Some (schedule r !! wd))); [done |].
  intros r. apply bool_decide_eq_true.
Qed.

Lemma get_restaurants_open_on_day_spec_witness :
  let r := mk_Restaurant (lit "Weekday Only")
             {[ 0 := mk_DaySchedule [mk_TimeRange (hm 9 0) (hm 17 0)] ]} in
  let self := mk_RestaurantService [r] true in
  exists names,
    returned (get_restaurants_open_on_day self 0) = Ok names /\
    names ≡ₚ name <$> filter (fun r => is_Some (schedule r !! 0)) [r] /\
    StronglySorted lex_le names /\
    after (get_restaurants_open_on_day self 0) = self.
Proof.
  intros r self.
  assert (H : 0 <= 0 <= 6) by lia.
  exact (get_restaurants_open_on_day_spec self 0 H eq_refl).
Defined.

(** X12. A restaurant that is open at some time of a day is open on that
    day: on a loaded service, every name [find_open_restaurants] returns
    for a query is among the names [get_restaurants_open_on_day] returns
    for the weekday of the query, as often. *)
Theorem find_open_within_open_on_day
    (parse : str -> option datetime) (self : RestaurantService)
    (s : str) (dt : datetime) :
  _loaded self = true -> parse s = Some dt -> 0 <= weekday dt <= 6 ->
  exists open_now open_that_day,
    returned (find_open_restaurants parse self s) = Ok open_now /\
    returned (get_restaurants_open_on_day self (weekday dt))
    = Ok open_that_day /\
    open_now ⊆+ open_that_day.
Proof.
  intros Hl Hp Hwd.
  unfold find_open_restaurants, get_restaurants_open_on_day.
  rewrite !(proj2 (Z.leb_le _ _)) by lia. rewrite Hl, Hp. simpl.
  eexists _, _. split; [done |]. split; [done |].
  rewrite !sorted_strs_perm.
  rewrite (collect_names _ (fun r => open_at r (weekday dt) (time_of dt)))
    by (intros r; apply is_open_at_datetime_open_at).
  rewrite (collect_names _ (fun r => is_Some (schedule r !! weekday dt)))
    by (intros r; apply bool_decide_eq_true).
  simpl. apply sublist_submseteq, fmap_sublist, filter_sublist_impl.
  intros r (ds & Hds & _). by exists ds.
Qed.

Lemma find_open_within_open_on_day_witness :
  let r := mk_Restaurant (lit "Weekday Only")
             {[ 0 := mk_DaySchedule [mk_TimeRange (hm 9 0) (hm 17 0)] ]} in
  let self := mk_RestaurantService [r] true in
  let parse := fun _ : str => Some (mk_datetime 0 (hm 15 30)) in
  exists open_now open_that_day,
    returned (find_open_restaurants parse self (lit "2023-12-25T15:30:00"))
    = Ok open_now /\
    returned (get_restaurants_open_on_day self 0) = Ok open_that_day /\
    open_now ⊆+ open_that_day.
Proof.
  intros r self parse.
  assert (H : 0 <= 0 <= 6) by lia.
  exact (find_open_within_open_on_day parse self (lit "2023-12-25T15:30:00")
           (mk_datetime 0 (hm 15 30)) eq_refl eq_refl H).
Defined.

Lemma find_by_name_Some rs query r :
  find_by_name rs query = Some r <->
  exists before rest,
    rs = before ++ r :: rest /\ lower (name r) = lower query /\
    Forall (fun q => lower (name q) <> lower query) before.
Proof.
  induction rs as [|x rs IH]; simpl.
  - split; [done |]. intros (before & rest & H & _). by destruct before.
  - case_bool_decide as Hx.
    + split.
      * intros [= <-]. by exists [], rs.
      * intros (before & rest & H & Hr & Hb).
        destruct before as [|y before]; [by injection H as -> |].
        injection H as <- _. by apply Forall_cons in Hb as [? _].
    + rewrite IH. split.
      * intros (before & rest & -> & Hr & Hb).
        exists (x :: before), rest. split; [done |]. split; [done |].
        by constructor.
      * intros (before & rest & H & Hr & Hb).
        destruct before as [|y before]; [injection H as <- _; done |].
        injection H as <- ->. apply Forall_cons in Hb as [_ Hb].
        by exists before, rest.
Qed.

Lemma find_by_name_None rs query :
  find_by_name rs query = None <->
  Forall (fun q => lower (name q) <> lower query) rs.
Proof.
  induction rs as [|x rs IH]; simpl; [by split |].
  case_bool_decide as Hx.
  - split; [done |]. by intros [? _]%Forall_cons.
  - rewrite IH. split; [by constructor | by intros [_ ?]%Forall_cons].
Qed.

(** X13. [get_restaurant_by_name] never raises, loaded or not. It returns
    the first restaurant, in load order, whose name equals the query up to
    the case of letters, and nothing when there is none (so nothing on a
    service that was never loaded); queries that differ only in case get
    the same answer; the service is left as it was. *)
Theorem get_restaurant_by_name_spec (self : RestaurantService) (query : str) :
  (forall r,
     returned (get_restaurant_by_name self query) = Ok (Some r) <->
     exists before rest,
       _restaurants self = before ++ r :: rest /\
       lower (name r) = lower query /\
       Forall (fun q => lower (name q) <> lower query) before) /\
  (returned (get_restaurant_by_name self query) = Ok None <->
   Forall (fun q => lower (name q) <> lower query) (_restaurants self)) /\
  (forall other, lower other = lower query ->
     returned (get_restaurant_by_name self other)
     = returned (get_restaurant_by_name self query)) /\
  returned (get_restaurant_by_name new_service query) = Ok None /\
  after (get_restaurant_by_name self query) = self.
Proof.
  unfold get_restaurant_by_name. simpl. split; [| split; [| split]].
  - intros r. rewrite <- find_by_name_Some. split; [by intros [= ->] | by intros ->].
  - rewrite <- find_by_name_None. split; [by intros [= ->] | by intros ->].
  - intros other Ho. f_equal.
    induction (_restaurants self) as [|x rs IH]; simpl; [done |].
    by rewrite Ho, IH.
  - done.
Qed.

Lemma load_after_Ok self c out rs :
  parse_restaurants_from_csv c = (out, Ok rs) ->
  after (load_restaurants_from_content self c) = mk_RestaurantService rs true.
Proof. unfold load_restaurants_from_content. by intros ->. Qed.

(** X14. Through any series of loads the service holds exactly the
    restaurants of the latest load that succeeded: a load that fails
    changes nothing, a load that succeeds replaces everything loaded
    before, and a service once loaded stays loaded. *)
Theorem load_all_latest (self : RestaurantService) (contents : list str) :
  (Forall load_fails contents -> load_all self contents = self) /\
  (forall before c later out rs,
     contents = before ++ c :: later ->
     parse_restaurants_from_csv c = (out, Ok rs) ->
     Forall load_fails later ->
     load_all self contents = mk_RestaurantService rs true) /\
  (_loaded self = true -> _loaded (load_all self contents) = true).
Proof.
  split; [apply load_all_fails |]. split.
  - intros before c later out rs -> Hc Hlater. unfold load_all.
    rewrite foldl_app. cbn [foldl]. rewrite (load_after_Ok _ _ _ _ Hc).
    by apply load_all_fails.
  - revert self. induction contents as [|c cs IH]; intros self Hl; [done |].
    unfold load_all. cbn [foldl]. apply IH.
    unfold load_restaurants_from_content.
    by destruct (parse_restaurants_from_csv c) as [out [rs|e]].
Qed.

Lemma load_all_latest_witness :
  load_all new_service [csv_with_bare_cr] = new_service /\
  _loaded (load_all (mk_RestaurantService [] true) [csv_with_bare_cr]) = true.
Proof.
  assert (Hf : Forall load_fails [csv_with_bare_cr]).
  { constructor; [vm_compute; exact I | constructor]. }
  split.
  - exact (proj1 (load_all_latest new_service [csv_with_bare_cr]) Hf).
  - exact (proj2 (proj2 (load_all_latest (mk_RestaurantService [] true)
                           [csv_with_bare_cr])) eq_refl).
Defined.

(** ** Reading back a text of quoted fields *)

Lemma process_line_app self l1 l2 :
  process_line self (l1 ++ l2) = self' ← feed self l1; process_line self' l2.
Proof.
  revert self. induction l1 as [|c l1 IH]; intros self; [done |].
  simpl. destruct (parse_process_char self (Some c)); simpl; [apply IH | done].
Qed.

Lemma feed_app self l1 l2 :
  feed self (l1 ++ l2) = self' ← feed self l1; feed self' l2.
Proof.
  revert self. induction l1 as [|c l1 IH]; intros self; [done |].
  simpl. destruct (parse_process_char self (Some c)); simpl; [apply IH | done].
Qed.

(** Inside quotes every character but the quote goes into the field. *)
Lemma feed_in_quotes fs buf f :
  quotechar ∉ f -> Z.of_nat (length (buf ++ f)) <= field_limit ->
  feed (mk_Reader fs IN_QUOTED_FIELD buf) f
  = Ok (mk_Reader fs IN_QUOTED_FIELD (buf ++ f)).
Proof.
  revert buf. induction f as [|c f IH]; intros buf Hq Hlen.
  - by rewrite app_nil_r.
  - apply not_elem_of_cons in Hq as [Hc Hq].
    rewrite length_app in Hlen. simpl in Hlen.
    cbn [feed]. unfold parse_process_char. cbn [state].
    rewrite (proj2 (Ascii.eqb_neq c quotechar)) by done.
    unfold parse_add_char. cbn [field fields state].
    destruct (Z.leb_spec field_limit (Z.of_nat (length buf))); [lia |].
    simpl. rewrite IH; [by rewrite <- app_assoc | done |].
    rewrite !length_app. simpl. lia.
Qed.

(** A quoted field at the start of a record or after a comma. *)
Lemma feed_quoted fs st f :
  st = START_RECORD \/ st = START_FIELD -> quotable f ->
  feed (mk_Reader fs st []) (quoted f)
  = Ok (mk_Reader fs QUOTE_IN_QUOTED_FIELD f).
Proof.
  intros Hst (Hq & _ & Hlen). unfold quoted.
  assert (H1 : parse_process_char (mk_Reader fs st []) (Some quotechar)
               = Ok (mk_Reader fs IN_QUOTED_FIELD [])).
  { by destruct Hst as [-> | ->]. }
  change ([quotechar] ++ f ++ [quotechar])
    with (quotechar :: (f ++ [quotechar])).
  cbn [feed]. rewrite H1. simpl. rewrite feed_app.
  rewrite (feed_in_quotes fs [] f) by done. reflexivity.
Qed.

(** The fields of a non-empty record, up to the closing quote of the
    last. *)
Lemma feed_fields f rest fs st :
  st = START_RECORD \/ st = START_FIELD -> Forall quotable (f :: rest) ->
  exists front l,
    f :: rest = front ++ [l] /\
    feed (mk_Reader fs st []) (join (lit ",") (quoted <$> f :: rest))
    = Ok (mk_Reader (fs ++ front) QUOTE_IN_QUOTED_FIELD l).
Proof.
  revert f fs st. induction rest as [|g rest IH]; intros f fs st Hst Hall.
  - apply Forall_cons in Hall as [Hf _]. exists [], f. split; [done |].
    simpl. rewrite app_nil_r. by apply feed_quoted.
  - apply Forall_cons in Hall as [Hf Hall].
    destruct (IH g (fs ++ [f]) START_FIELD) as (front & l & Heq & Hfeed);
      [by right | done |].
    exists (f :: front), l. split; [by rewrite Heq |].
    change (join (lit ",") (quoted <$> f :: g :: rest))
      with (quoted f ++ lit "," ++ join (lit ",") (quoted <$> g :: rest)).
    rewrite feed_app, (feed_quoted _ _ _ Hst Hf).
    assert (Hc : forall rest',
               feed (mk_Reader fs QUOTE_IN_QUOTED_FIELD f) (lit "," ++ rest')
               = feed (mk_Reader (fs ++ [f]) START_FIELD []) rest')
      by (intros rest'; reflexivity).
    etransitivity; [apply Hc |]. rewrite Hfeed. by rewrite <- app_assoc.
Qed.

(** A whole line gives back its record. *)
Lemma process_line_csv_line row :
  Forall quotable row ->
  process_line parse_reset (csv_line row) = Ok (mk_Reader row START_RECORD []).
Proof.
  intros Hall. unfold csv_line. destruct row as [|f rest]; [done |].
  destruct (feed_fields f rest [] START_RECORD) as (front & l & Heq & Hfeed);
    [by left | done |].
  rewrite process_line_app. unfold parse_reset. rewrite Hfeed. simpl.
  by rewrite Heq.
Qed.

Lemma readlines_line body rest :
  LF ∉ body -> readlines (body ++ LF :: rest) = (body ++ [LF]) :: readlines rest.
Proof.
  induction body as [|c body IH]; intros Hn; simpl.
  - done.
  - apply not_elem_of_cons in Hn as [Hc Hn].
    rewrite (proj2 (Ascii.eqb_neq c LF)) by done. by rewrite IH.
Qed.

Lemma join_quoted_no_lf row :
  Forall quotable row -> LF ∉ join (lit ",") (quoted <$> row).
Proof.
  induction 1 as [|f row (_ & Hf & _) Hrow IH]; [apply not_elem_of_nil |].
  assert (Hq : LF ∉ quoted f).
  { unfold quoted. rewrite !elem_of_app, !list_elem_of_singleton.
    intros [H|[H|H]]; [discriminate | done | discriminate]. }
  destruct row as [|g row]; [done |].
  change (join (lit ",") (quoted <$> f :: g :: row))
    with (quoted f ++ lit "," ++ join (lit ",") (quoted <$> g :: row)).
  rewrite !elem_of_app. intros [H|[H|H]]; [done | | done].
  apply list_elem_of_singleton in H. discriminate.
Qed.

Lemma readlines_csv_text rows :
  Forall (Forall quotable) rows -> readlines (csv_text rows) = csv_line <$> rows.
Proof.
  induction 1 as [|row rows Hrow _ IH]; [done |].
  unfold csv_text. rewrite fmap_cons. cbn [concat]. unfold csv_line at 1.
  rewrite <- app_assoc. cbn [app].
  rewrite readlines_line by by apply join_quoted_no_lf.
  f_equal. apply IH.
Qed.

Lemma read_records_csv_lines rows :
  Forall (Forall quotable) rows ->
  read_records parse_reset (csv_line <$> rows) = (rows, None).
Proof.
  induction 1 as [|row rows Hrow _ IH]; [done |].
  rewrite fmap_cons. cbn [read_records].
  rewrite (process_line_csv_line _ Hrow). cbn [state].
  rewrite bool_decide_eq_true_2 by done. by rewrite IH.
Qed.

(** X15. A CSV text in which every field is written between quotes, with
    no quote character or line feed inside a field, is read back as exactly
    its records, whatever else the fields hold (commas, slashes, spaces).
    So for such a text [parse_restaurants_from_csv] drops the first record
    and returns the restaurants of the others, with a warning for each
    record of two fields whose hours do not parse. *)
Theorem parse_restaurants_from_csv_quoted
    (header : list str) (data : list (list str)) :
  Forall (Forall quotable) (header :: data) ->
  csv_reader (csv_text (header :: data)) = (header :: data, None) /\
  parse_restaurants_from_csv (csv_text (header :: data))
  = (omap warning_of data, Ok (omap restaurant_of data)).
Proof.
  intros Hall.
  assert (Hr : csv_reader (csv_text (header :: data)) = (header :: data, None)).
  { unfold csv_reader. rewrite readlines_csv_text by done.
    by apply read_records_csv_lines. }
  split; [done |]. unfold parse_restaurants_from_csv. rewrite Hr.
  by rewrite load_rows_spec.
Qed.

Lemma parse_restaurants_from_csv_quoted_witness :
  let header := [lit "Restaurant Name"; lit "Hours"] in
  let data := [[lit "Late Night Spot"; lit "Mon-Sun 5 pm - 2 am"]] in
  csv_reader (csv_text (header :: data)) = (header :: data, None) /\
  parse_restaurants_from_csv (csv_text (header :: data))
  = (omap warning_of data, Ok (omap restaurant_of data)).
Proof.
  intros header data.
  apply (parse_restaurants_from_csv_quoted header data).
  repeat first [apply Forall_nil_2 | apply Forall_cons_2];
    (split; [by apply contains_char_not_elem_of |
             split; [by apply contains_char_not_elem_of |
                     vm_compute; discriminate]]).
Defined.

(** ** Cutting and joining *)

Lemma join_cons_ne sep x l :
  l <> [] -> join sep (x :: l) = x ++ sep ++ join sep l.
Proof. by destruct l. Qed.

Lemma join_cons_head sep c l :
  l <> [] -> join sep (cons_head c l) = c :: join sep l.
Proof. destruct l as [|p [|q l]]; by intros. Qed.

Lemma cons_head_ne c l : cons_head c l <> [].
Proof. by destruct l. Qed.

Lemma split_n_ne sep n s : split_n sep n s <> [].
Proof.
  destruct n, s as [|c s]; simpl; try done.
  destruct (Ascii.eqb c sep); [done | apply cons_head_ne].
Qed.

Lemma join_split sep s : join [sep] (split sep s) = s.
Proof.
  induction s as [|c s IH]; [done |]. simpl.
  destruct (Ascii.eqb_spec c sep) as [->|_].
  - rewrite join_cons_ne by apply split_nonempty. simpl. by rewrite IH.
  - rewrite join_cons_head by apply split_nonempty. by rewrite IH.
Qed.

Lemma join_split_n sep n s : join [sep] (split_n sep n s) = s.
Proof.
  revert n. induction s as [|c s IH]; intros [|n]; try done.
  cbn [split_n]. destruct (Ascii.eqb_spec c sep) as [->|_].
  - rewrite join_cons_ne by apply split_n_ne. simpl. by rewrite IH.
  - rewrite join_cons_head by apply split_n_ne. by rewrite IH.
Qed.

Lemma join_snoc_ne sep l y :
  l <> [] -> join sep (l ++ [y]) = join sep l ++ sep ++ y.
Proof.
  induction l as [|x l IH]; [done |]. intros _.
  destruct l as [|x' l]; [done |].
  change ((x :: x' :: l) ++ [y]) with (x :: ((x' :: l) ++ [y])).
  rewrite join_cons_ne by done. rewrite IH by done.
  rewrite (join_cons_ne _ x (x' :: l)) by done. by rewrite <- !app_assoc.
Qed.

Lemma join_rev_map sep (l : list str) :
  join [sep] (rev (map (@rev ascii) l)) = rev (join [sep] l).
Proof.
  induction l as [|x l IH]; [done |].
  cbn [map rev]. destruct l as [|x' l]; [done |].
  rewrite join_snoc_ne.
  - rewrite IH, (join_cons_ne _ x (x' :: l)) by done.
    by rewrite !rev_app_distr, <- app_assoc.
  - cbn [map rev]. by destruct (rev (map (@rev ascii) l)).
Qed.

(** The pieces of [rsplit] joined by the separator are the text. *)
Lemma join_rsplit sep n s : join [sep] (rsplit sep n s) = s.
Proof.
  unfold rsplit. by rewrite join_rev_map, join_split_n, rev_involutive.
Qed.

(** With four pieces, the day candidate and the time candidate of the
    primary attempt, joined by one space, are the period. *)
Lemma primary_candidates period :
  length (rsplit " " 3 period) = 4%nat ->
  let parts := rsplit " " 3 period in
  period = join (lit " ") (take (length parts - 3) parts)
           ++ " "%char :: join (lit " ") (drop (length parts - 3) parts).
Proof.
  intros Hlen parts. pose proof (join_rsplit " " 3 period) as Hj.
  fold parts in Hj, Hlen. rewrite Hlen.
  destruct parts as [|p0 [|p1 [|p2 [|p3 [|? ?]]]]]; try done.
Qed.

(** ** A day list has no digit *)

Lemma ws_nondigit s :
  Forall (fun c => isspace c = true) s -> Forall (fun c => isdigit c = false) s.
Proof.
  intros H. eapply Forall_impl; [exact H | apply isspace_not_digit].
Qed.

Lemma strip_nondigit_inv s :
  Forall (fun c => isdigit c = false) (strip s) ->
  Forall (fun c => isdigit c = false) s.
Proof.
  intros H. destruct (strip_decomp s) as (l & r & Hs & Hl & Hr).
  rewrite Hs. repeat apply Forall_app_2; auto using ws_nondigit.
Qed.

Lemma lower_nondigit_inv s :
  Forall (fun c => isdigit c = false) (lower s) ->
  Forall (fun c => isdigit c = false) s.
Proof.
  unfold lower. induction s as [|c s IH]; [done |]. simpl.
  intros [Hc Hs]%Forall_cons. constructor; [| by apply IH].
  by rewrite <- isdigit_lower_char.
Qed.

Lemma day_mapping_key_nondigit k v :
  dict_get day_mapping k = Some v -> Forall (fun c => isdigit c = false) k.
Proof.
  unfold day_mapping. simpl.
  repeat case_bool_decide; try done; intros _; subst k; by repeat constructor.
Qed.

Lemma join_nondigit sep parts :
  Forall (fun c => isdigit c = false) sep ->
  Forall (Forall (fun c => isdigit c = false)) parts ->
  Forall (fun c => isdigit c = false) (join sep parts).
Proof.
  intros Hsep. induction 1 as [|p parts Hp Hparts IH]; [constructor |].
  destruct parts as [|q parts]; [done |].
  rewrite join_cons_ne by done. repeat apply Forall_app_2; auto.
Qed.

Lemma parse_day_part_nondigit p ds :
  parse_day_part p = Ok ds -> Forall (fun c => isdigit c = false) p.
Proof.
  intros H. apply strip_nondigit_inv. revert H. unfold parse_day_part.
  destruct (contains_char "-" (strip p)) eqn:Hc.
  - apply contains_char_elem_of, list_elem_of_split_l in Hc
      as (a & b & Hseg & Ha).
    rewrite Hseg, (split_n_first _ _ _ Ha).
    destruct (dict_get day_mapping (strip a)) as [i|] eqn:Hi; [| done].
    destruct (dict_get day_mapping (strip b)) as [j|] eqn:Hj; [| done].
    intros _. apply day_mapping_key_nondigit, strip_nondigit_inv in Hi, Hj.
    apply Forall_app_2; [done |]. by constructor.
  - destruct (dict_get day_mapping (strip p)) as [i|] eqn:Hi; [| done].
    intros _. by eapply day_mapping_key_nondigit.
Qed.

Lemma parse_day_range_nondigit s days :
  parse_day_range s = Ok days -> Forall (fun c => isdigit c = false) s.
Proof.
  unfold parse_day_range.
  destruct (parse_day_parts _ _) as [l|] eqn:Hl; [| done]. intros _.
  apply parse_day_parts_Ok in Hl as (dss & Hdss & _).
  apply strip_nondigit_inv, lower_nondigit_inv.
  rewrite <- (join_split "," (lower (strip s))).
  apply join_nondigit; [by repeat constructor |].
  apply Forall_forall. intros p Hp.
  apply list_elem_of_lookup in Hp as [i Hi].
  destruct (Forall2_lookup_l _ _ _ _ _ Hdss Hi) as (ds & _ & Hds).
  by eapply parse_day_part_nondigit.
Qed.

(** ** The search pattern against the time pattern *)

Lemma hours_pattern_nondigit_head c s :
  isdigit c = false -> hours_pattern (c :: s) = [].
Proof.
  intros Hc. destruct (hours_pattern (c :: s)) as [|[x r] l] eqn:Hp; [done |].
  assert (Hin : (x, r) ∈ hours_pattern (c :: s)) by (rewrite Hp; by left).
  apply elem_of_m_seq in Hin as (x1 & r1 & x2 & H1 & _).
  apply elem_of_m_digits_1_2 in H1 as (Hs & Hl & Hd).
  destruct x1 as [|d x1]; [simpl in Hl; lia |].
  injection Hs as <- _. apply Forall_cons in Hd as [Hd _]. congruence.
Qed.

(** The search skips a text without digits and stops where the pattern
    first matches. *)
Lemma re_search_from_skip pre s pos :
  Forall (fun c => isdigit c = false) pre -> hours_pattern s <> [] ->
  re_search_from hours_pattern (pre ++ s) pos = Some (pos + length pre)%nat.
Proof.
  intros Hpre Hs. revert pos.
  induction Hpre as [|c pre Hc _ IH]; intros pos.
  - cbn [app length]. destruct s as [|d s]; cbn [re_search_from];
      (destruct (hours_pattern _); [done | f_equal; lia]).
  - cbn [app re_search_from length].
    rewrite (hours_pattern_nondigit_head _ _ Hc), IH. f_equal. lia.
Qed.

Lemma lower_app_inv x k1 k2 :
  lower x = k1 ++ k2 ->
  exists x1 x2, x = x1 ++ x2 /\ lower x1 = k1 /\ lower x2 = k2.
Proof.
  revert x. induction k1 as [|a k1 IH]; intros x H.
  - by exists [], x.
  - destruct x as [|c x]; [done |]. injection H as Hc H.
    destruct (IH x H) as (x1 & x2 & -> & <- & <-).
    exists (c :: x1), x2. by rewrite <- Hc.
Qed.

Lemma lower_digits_inv s :
  Forall (fun c => isdigit c = true) (lower s) ->
  Forall (fun c => isdigit c = true) s.
Proof.
  unfold lower. induction s as [|c s IH]; [done |]. simpl.
  intros [Hc Hs]%Forall_cons. constructor; [| by apply IH].
  by rewrite <- isdigit_lower_char.
Qed.

Lemma lower_ws_inv s :
  Forall (fun c => isspace c = true) (lower s) ->
  Forall (fun c => isspace c = true) s.
Proof.
  unfold lower. induction s as [|c s IH]; [done |]. simpl.
  intros [Hc Hs]%Forall_cons. constructor; [| by apply IH].
  by rewrite <- isspace_lower_char.
Qed.

Lemma lower_length s : length (lower s) = length s.
Proof. apply length_map. Qed.

Lemma lower_char_colon c : lower_char c = ":"%char -> c = ":"%char.
Proof.
  intros H. destruct (lower_char_cases c) as [[Hc _]|[Ho Hu]]; [congruence |].
  rewrite H in Ho. change (ord ":") with 58 in Ho. lia.
Qed.

Lemma elem_of_m_chr_i c s x r :
  (x, r) ∈ m_chr_i c s <->
  exists d, s = d :: r /\ lower_char d = c /\ x = [d].
Proof.
  unfold m_chr_i. rewrite elem_of_m_class.
  by setoid_rewrite Ascii.eqb_eq.
Qed.

(** Where the time pattern matches the lowercased text, the search pattern,
    which ignores case, matches the text itself, whatever follows. *)
Lemma hours_pattern_matches x y :
  time_pattern (lower x) <> [] -> hours_pattern (x ++ y) <> [].
Proof.
  intros Hne.
  destruct (time_pattern (lower x)) as [|[[g1 g2] g3] l] eqn:Hp; [done |].
  assert (Hin : (g1, g2, g3) ∈ time_pattern (lower x))
    by (rewrite Hp; by left).
  apply elem_of_time_pattern in Hin
    as (ws & rest & Hx & Hlen & Hh & Hm & Hws & Hsuf).
  apply lower_app_inv in Hx as (h' & x1 & -> & Hh' & Hx).
  apply lower_app_inv in Hx as (m' & x2 & -> & Hm' & Hx).
  apply lower_app_inv in Hx as (ws' & x3 & -> & Hws' & Hx).
  apply lower_app_inv in Hx as (suf' & rest' & -> & Hsuf' & _).
  subst g1 ws.
  apply lower_digits_inv in Hh. apply lower_ws_inv in Hws.
  rewrite lower_length in Hlen.
  assert (Hin : (h' ++ m' ++ ws' ++ suf', rest' ++ y)
                ∈ hours_pattern ((h' ++ m' ++ ws' ++ suf' ++ rest') ++ y));
    [| intros Hnil; rewrite Hnil in Hin; by apply elem_of_nil in Hin].
  unfold hours_pattern. apply elem_of_m_seq.
  exists h', (m' ++ ws' ++ suf' ++ rest' ++ y), (m' ++ ws' ++ suf').
  split; [apply elem_of_m_digits_1_2; by rewrite <- !app_assoc |].
  split; [| done]. apply elem_of_m_seq.
  exists m', (ws' ++ suf' ++ rest' ++ y), (ws' ++ suf').
  split; [| split; [| done]].
  - apply elem_of_m_opt. destruct g2 as [mm|]; simpl in Hm'.
    + left. destruct m' as [|c0 mm']; [done |]. injection Hm' as Hc0 Hmm.
      apply lower_char_colon in Hc0 as ->. subst mm.
      destruct Hm as [Hl Hd]. rewrite lower_length in Hl.
      apply lower_digits_inv in Hd.
      apply elem_of_m_seq. exists [":"%char], (mm' ++ ws' ++ suf' ++ rest' ++ y), mm'.
      split; [by apply elem_of_m_chr |]. split; [| done].
      by apply elem_of_m_digits_2.
    + right. by destruct m'.
  - apply elem_of_m_seq. exists ws', (suf' ++ rest' ++ y), suf'.
    split; [by apply elem_of_m_star_class |]. split; [| done].
    unfold m_alt. apply elem_of_app.
    destruct Hsuf as [-> | ->];
      destruct suf' as [|c1 [|c2 [|? ?]]]; try done;
      injection Hsuf' as H1 H2; [left | right];
      apply elem_of_m_seq; exists [c1], (c2 :: rest' ++ y), [c2];
      (split; [apply elem_of_m_chr_i; by exists c1 |]);
      (split; [apply elem_of_m_chr_i; by exists c2 | done]).
Qed.

(** ** The two ways to cut a period *)

Lemma ws_no_hyphen s :
  Forall (fun c => isspace c = true) s -> "-"%char ∉ s.
Proof.
  intros H Hin. rewrite Forall_forall in H. by specialize (H _ Hin).
Qed.

(** Whitespace around a time range with a hyphen changes nothing. *)
Lemma parse_time_range_ws l x r :
  Forall (fun c => isspace c = true) l ->
  Forall (fun c => isspace c = true) r ->
  "-"%char ∈ x ->
  parse_time_range (l ++ x ++ r) = parse_time_range x.
Proof.
  intros Hl Hr Hin.
  apply list_elem_of_split_l in Hin as (a & b & -> & Ha).
  assert (Hla : "-"%char ∉ l ++ a).
  { rewrite elem_of_app. intros [H|H]; [by apply (ws_no_hyphen l) | done]. }
  replace (l ++ (a ++ "-"%char :: b) ++ r)
    with ((l ++ a) ++ "-"%char :: (b ++ r))
    by (by rewrite <- !app_assoc).
  unfold parse_time_range.
  assert (Hc : forall a' b', contains_char "-" (a' ++ "-"%char :: b') = true).
  { intros a' b'. apply contains_char_elem_of, elem_of_app. right. by left. }
  rewrite !Hc. cbn [negb].
  rewrite (split_n_first _ _ _ Ha), (split_n_first _ _ _ Hla).
  replace (strip (l ++ a)) with (strip a)
    by (rewrite <- (app_nil_r a) at 2; by rewrite strip_app_ws).
  replace (strip (b ++ r)) with (strip b)
    by (symmetry; by apply (strip_app_ws [])).
  done.
Qed.

Lemma parse_time_range_strip x :
  "-"%char ∈ x -> parse_time_range (strip x) = parse_time_range x.
Proof.
  intros Hin. destruct (strip_decomp x) as (l & r & Hx & Hl & Hr).
  rewrite Hx at 2. rewrite parse_time_range_ws; [done..|].
  rewrite Hx in Hin. apply elem_of_app in Hin as [H|H];
    [by apply ws_no_hyphen in Hl |].
  apply elem_of_app in H as [H|H]; [done | by apply ws_no_hyphen in Hr].
Qed.

(** A text [parse_time_string] accepts starts, once stripped and
    lowercased, with a match of the time pattern. *)
Lemma parse_time_string_matches x t :
  parse_time_string x = Ok t -> time_pattern (lower (strip x)) <> [].
Proof.
  unfold parse_time_string. cbv zeta.
  repeat (let H := fresh in
          case_bool_decide as H; [rewrite H; by vm_compute |]; cbn [orb]).
  unfold parse_time_regular, re_match.
  destruct (time_pattern (lower (strip x))); [by intros [=] | by intros _ [=]].
Qed.

(** The heart of the agreement: when the day list and the time range of
    the primary cut both parse, the search finds the start of the time
    range, up to whitespace, and the handler would parse the same. *)
Lemma fallback_parse_of_parts days_part time_range_part r :
  parse_parts days_part time_range_part = Ok r ->
  fallback_parse (days_part ++ " "%char :: time_range_part) = Ok r.
Proof.
  intros Hp. unfold parse_parts in Hp.
  destruct (parse_day_range days_part) as [days|] eqn:Hd; [| done].
  destruct (parse_time_range time_range_part) as [tr|] eqn:Ht; [| done].
  simpl in Hp.
  assert (Hin : "-"%char ∈ time_range_part).
  { apply contains_char_elem_of. unfold parse_time_range in Ht.
    by destruct (contains_char "-" time_range_part). }
  destruct (lstrip_decomp time_range_part) as (la & HT & Hla).
  set (T' := lstrip time_range_part) in *.
  assert (Hin' : "-"%char ∈ T').
  { rewrite HT in Hin. apply elem_of_app in Hin as [H|H];
      [by apply ws_no_hyphen in Hla | done]. }
  assert (Ht' : parse_time_range T' = Ok tr).
  { rewrite <- Ht, HT. rewrite <- (app_nil_r T') at 2.
    symmetry. by apply parse_time_range_ws. }
  (* the stripped start time opens [T'] *)
  apply list_elem_of_split_l in Hin' as Hcut.
  destruct Hcut as (a & b & HT' & Ha).
  assert (Hm : hours_pattern T' <> []).
  { unfold parse_time_range in Ht'. rewrite HT' in Ht'.
    assert (Hc : contains_char "-" (a ++ "-"%char :: b) = true).
    { apply contains_char_elem_of, elem_of_app. right. by left. }
    rewrite Hc, (split_n_first _ _ _ Ha) in Ht'. cbn [negb] in Ht'.
    destruct (parse_time_string (strip a)) as [ts|] eqn:Hts; [| done].
    apply parse_time_string_matches in Hts. rewrite strip_idemp in Hts.
    destruct (lstrip_decomp a) as (l0 & Ha0 & Hl0).
    assert (Hl0nil : l0 = []).
    { destruct l0 as [|c l0]; [done |]. exfalso.
      apply Forall_cons in Hl0 as [Hc0 _].
      assert (Hh : head T' = Some c) by (by rewrite HT', Ha0).
      apply lstrip_head in Hh. congruence. }
    subst l0. simpl in Ha0.
    destruct (rstrip_decomp (lstrip a)) as (ra & Hra & _).
    fold (strip a) in Hra.
    rewrite HT', Ha0, Hra, <- app_assoc.
    by apply hours_pattern_matches. }
  set (pre := days_part ++ " "%char :: la).
  assert (Hpre : Forall (fun c => isdigit c = false) pre).
  { apply Forall_app. split; [by eapply parse_day_range_nondigit |].
    constructor; [done | by apply ws_nondigit]. }
  assert (Hper : days_part ++ " "%char :: time_range_part = pre ++ T').
  { unfold pre. rewrite HT at 1. by rewrite <- app_assoc. }
  unfold fallback_parse, re_search.
  rewrite Hper, (re_search_from_skip _ _ 0%nat Hpre Hm). cbn [Nat.add].
  rewrite take_app_length, drop_app_length.
  unfold parse_parts.
  assert (Hd' : parse_day_range (strip pre) = Ok days).
  { rewrite <- Hd. unfold parse_day_range. rewrite strip_idemp.
    replace (strip pre) with (strip days_part); [done |].
    symmetry. apply (strip_app_ws []); [done |]. by constructor. }
  rewrite Hd', parse_time_range_strip, Ht' by done. by rewrite <- Hp.
Qed.

(** X16. The primary cut of a period never decides the outcome: a period
    that [rsplit] cuts into fewer than four pieces is refused, and every
    other period is parsed exactly as the handler alone would parse it,
    cutting at the first time the search finds.  In particular a period the
    primary cut parses is parsed the same by the handler. *)
Theorem parse_period_is_fallback (period : str) :
  parse_period period
  = (if (length (rsplit " " 3 period) <? 4)%nat
     then Raise (ValueError (lit "Cannot parse time period: " ++ period))
     else fallback_parse period) /\
  (forall r,
     length (rsplit " " 3 period) = 4%nat ->
     primary_parse (rsplit " " 3 period) = Ok r ->
     fallback_parse period = Ok r).
Proof.
  assert (Hagree : forall r,
            length (rsplit " " 3 period) = 4%nat ->
            primary_parse (rsplit " " 3 period) = Ok r ->
            fallback_parse period = Ok r).
  { intros r Hlen Hp. rewrite (primary_candidates period Hlen) at 1.
    by apply fallback_parse_of_parts. }
  split; [| exact Hagree].
  unfold parse_period. cbv zeta.
  destruct (length (rsplit " " 3 period) <? 4)%nat eqn:Hlt; [done |].
  apply Nat.ltb_ge in Hlt.
  pose proof (rsplit_length period) as Hle.
  assert (Hlen : length (rsplit " " 3 period) = 4%nat) by lia.
  destruct (primary_parse (rsplit " " 3 period)) as [r|e] eqn:Hp.
  - symmetry. by apply Hagree.
  - apply parse_parts_raises in Hp. by destruct e.
Qed.

(** ** The endpoints *)

(** X17. The endpoint [get_open_restaurants] answers 503 exactly on a
    service that is not loaded.  On a loaded service it answers 400 exactly
    when the datetime text cannot be parsed, and the detail then carries
    the prefix twice, once from the service and once from the endpoint;
    otherwise it returns the names of the restaurants open at that
    datetime, sorted.  It never answers 500. *)
Theorem get_open_restaurants_answers
    (parse : str -> option datetime) (self : RestaurantService) (s : str) :
  (_loaded self = false <->
   main.get_open_restaurants parse self s
   = main.HTTPException 503 (lit "Restaurant data not loaded")) /\
  (_loaded self = true ->
   (parse s = None <->
    main.get_open_restaurants parse self s
    = main.HTTPException 400
        (lit "Invalid datetime format: Invalid datetime format: " ++ s)) /\
   (forall dt, parse s = Some dt ->
    exists names,
      main.get_open_restaurants parse self s
      = main.Response (main.mk_RestaurantsResponse names) /\
      names ≡ₚ name <$> filter (fun r => open_at r (weekday dt) (time_of dt))
                               (_restaurants self) /\
      StronglySorted lex_le names)) /\
  (forall code detail,
     main.get_open_restaurants parse self s = main.HTTPException code detail ->
     code = 503 \/ code = 400).
Proof.
  unfold main.get_open_restaurants, find_open_restaurants, is_loaded.
  destruct (_loaded self) eqn:Hl; cbn [negb].
  - destruct (parse s) as [dt|] eqn:Hp; cbn [returned main.exn_str].
    + split; [by split |]. split; [| done]. intros _. split; [by split |].
      intros dt' [= <-]. eexists. split; [done |].
      split; [| apply sorted_strs_sorted].
      rewrite sorted_strs_perm.
      rewrite (collect_names _
                 (fun r => open_at r (weekday dt) (time_of dt))); [done |].
      intros r. apply is_open_at_datetime_open_at.
    + split; [by split |]. split.
      * intros _. split; [by split | done].
      * intros code detail [= <- _]. by right.
  - split; [by split |]. split; [done |].
    intros code detail [= <- _]. by left.
Qed.

(** X18. The endpoint [get_restaurant_count] answers 503 exactly on a
    service that is not loaded.  After a load from content that succeeds it
    returns the number of records of two fields after the header, less the
    number of warnings the load printed for hours it could not parse. *)
Theorem get_restaurant_count_answers
    (self : RestaurantService) (csv_content : str) :
  (_loaded self = false <->
   main.get_restaurant_count self
   = main.HTTPException 503 (lit "Restaurant data not loaded")) /\
  (forall out rs,
     parse_restaurants_from_csv csv_content = (out, Ok rs) ->
     let data := tail (csv_reader csv_content).1 in
     main.get_restaurant_count
       (after (load_restaurants_from_content self csv_content))
     = main.Response
         (main.mk_CountResponse
            (Z.of_nat (length (filter (fun row : list str =>
                                         length row = 2%nat) data))
             - Z.of_nat (length out)))).
Proof.
  split.
  - unfold main.get_restaurant_count, is_loaded.
    by destruct (_loaded self); split.
  - intros out rs H. cbv zeta. rewrite (load_after_Ok _ _ _ _ H).
    unfold main.get_restaurant_count, is_loaded, get_restaurant_count.
    cbn [_loaded _restaurants negb]. do 2 f_equal.
    unfold parse_restaurants_from_csv in H.
    destruct (csv_reader csv_content) as [rows err]. cbn [fst].
    assert (Hres : out = omap warning_of (tail rows) /\
                   rs = omap restaurant_of (tail rows)).
    { destruct rows as [|header rows].
      - destruct err; by simplify_eq.
      - rewrite load_rows_spec in H. destruct err; by simplify_eq. }
    destruct Hres as [-> ->]. rewrite <- omap_rows_length. lia.
Qed.

(** ** From the hours text to the answer *)

(** X19. A restaurant whose schedule was parsed from an hours text is open
    at a datetime exactly when some period of the text lists the weekday of
    the datetime and the time range of that period contains its time of
    day.  Only the weekday of the datetime itself is looked up: the hours
    after midnight of an overnight range count on the listed day, not on
    the day after. *)
Theorem is_open_at_datetime_periods
    (hours_str : str) (r : Restaurant)
    (parsed : list (list Z * TimeRange)) (dt : datetime) :
  parse_restaurant_hours hours_str = Ok (schedule r) ->
  Forall2 (fun p q => parse_period p = Ok q) (periods_of hours_str) parsed ->
  (is_open_at_datetime r dt = true <->
   exists days tr,
     (days, tr) ∈ parsed /\ weekday dt ∈ days /\
     contains_time tr (time_of dt) = true).
Proof.
  intros Hs Hall.
  pose proof (parse_periods_spec (map strip (split "/" hours_str)) ∅) as H.
  rewrite strip_periods_of in H. unfold parse_restaurant_hours in Hs.
  cbv zeta in Hs. rewrite Hs in H. destruct H as (parsed' & Hall' & Hlook).
  rewrite <- (Forall2_parse_unique _ _ _ Hall Hall') in Hlook.
  unfold is_open_at_datetime. rewrite Hlook, lookup_empty.
  assert (Hex : Exists (fun tr => contains_time tr (time_of dt) = true)
                       (ranges_on (weekday dt) parsed) <->
                exists days tr,
                  (days, tr) ∈ parsed /\ weekday dt ∈ days /\
                  contains_time tr (time_of dt) = true).
  { unfold ranges_on. rewrite Exists_exists. split.
    - intros (tr & Hin & Hc). apply list_elem_of_fmap in Hin as ([days tr'] & -> & Hin).
      apply list_elem_of_filter in Hin as [Hd Hin]. by exists days, tr'.
    - intros (days & tr & Hin & Hd & Hc). exists tr. split; [| done].
      apply list_elem_of_fmap. exists (days, tr). split; [done |].
      by apply list_elem_of_filter. }
  rewrite <- Hex.
  destruct (ranges_on (weekday dt) parsed) as [|tr l] eqn:Hr.
  - split; [done | by intros ?%Exists_nil].
  - cbn [from_option app]. by rewrite is_open_at_time_Exists.
Qed.

Lemma is_open_at_datetime_periods_witness :
  let late := mk_TimeRange (hm 23 0) (hm 2 0) in
  let r := mk_Restaurant (lit "Late") {[ 0 := mk_DaySchedule [late] ]} in
  is_open_at_datetime r (mk_datetime 1 (hm 1 0)) = true <->
  exists days tr,
    (days, tr) ∈ [([0], late)] /\ 1 ∈ days /\
    contains_time tr (hm 1 0) = true.
Proof.
  intros late r.
  assert (H1 : parse_restaurant_hours (lit "Mon 11 pm - 2 am")
               = Ok (schedule r)) by (vm_compute; reflexivity).
  assert (H2 : Forall2 (fun p q => parse_period p = Ok q)
                 (periods_of (lit "Mon 11 pm - 2 am")) [([0], late)]).
  { change (periods_of (lit "Mon 11 pm - 2 am"))
      with [lit "Mon 11 pm - 2 am"].
    repeat constructor; vm_compute; reflexivity. }
  exact (is_open_at_datetime_periods (lit "Mon 11 pm - 2 am") r
           [([0], late)] (mk_datetime 1 (hm 1 0)) H1 H2).
Defined.
